(** * cf-chat-agent: the session relay of [src/worker/agent.ts]

    A shallow embedding of the Durable-Object chat agent ([AIAgent]) and of
    the platform facilities it calls, followed by the properties of its
    command handling and of its streaming-response pipeline.

    Layout:
    - [JsString]  : JavaScript strings as sequences of UTF-16 code units and
                    the string methods the agent uses;
    - [Json]      : JSON values, property access, truthiness, and a parser;
    - [Utf8]      : the streaming UTF-8 decoder behind [TextDecoder];
    - [Platform]  : the interface of the runtime ([JSON.parse], [TextDecoder],
                    [Date.now]) the agent is written against;
    - the agent itself, with explicit state passing over a [World]
      (in-memory state, message table, clock, connections, trace);
    - the notions of the specification (frames, fragments, events, the
      Store's ordered selection) and the scenarios;
    - lemmas, then the properties of the relay and their instances on the
      scenarios.

    What the embedding takes for granted: a handler runs to completion
    before the next one starts (no interleaving at an [await]); the Store
    operations and [conn.send] do not throw; a stream delivers finitely many
    chunks before it closes or fails.  The wire encoding of events
    ([JSON.stringify]) and the console output are left out. *)

From Stdlib Require Import String Ascii.
From Stdlib Require Import List NArith ZArith Bool Lia Arith.
From Stdlib.Strings Require Import Byte.
Import ListNotations.

Set Implicit Arguments.
Set Warnings "-register-all".

(* ===================================================================== *)
(** * JavaScript strings *)
(* ===================================================================== *)

Module JsString.

(** A JavaScript string is a finite sequence of 16-bit code units. *)
Definition codeunit := N.
Definition jsstring := list codeunit.

(** ASCII literals. *)
Definition js (s : string) : jsstring :=
  map N_of_ascii (list_ascii_of_string s).

(** ASCII literals in which the apostrophe stands for the double quote,
    so that JSON texts can be written down legibly. *)
Definition jsq (s : string) : jsstring :=
  map (fun c => if N.eqb c 39 then 34%N else c) (js s).

Definition LF : codeunit := 10%N.
Definition CR : codeunit := 13%N.

(** [a === b] on strings. *)
Fixpoint jseqb (a b : jsstring) : bool :=
  match a, b with
  | [], [] => true
  | x :: a', y :: b' => N.eqb x y && jseqb a' b'
  | _, _ => false
  end.

(** [!s] on a string: only the empty string is falsy. *)
Definition isEmpty (s : jsstring) : bool :=
  match s with [] => true | _ => false end.

(** [s.startsWith(pat)] *)
Fixpoint startsWith (pat s : jsstring) : bool :=
  match pat, s with
  | [], _ => true
  | p :: pat', c :: s' => N.eqb p c && startsWith pat' s'
  | _ :: _, [] => false
  end.

(** [s.indexOf(pat)]: the least position at which [pat] occurs; [None]
    stands for -1. *)
Fixpoint indexOf (pat s : jsstring) : option nat :=
  if startsWith pat s then Some 0
  else match s with
       | [] => None
       | _ :: s' => option_map S (indexOf pat s')
       end.

(** [s.slice(0, i)] and [s.slice(i)] for [0 <= i]. *)
Definition slice_to (i : nat) (s : jsstring) : jsstring := firstn i s.
Definition slice_from (i : nat) (s : jsstring) : jsstring := skipn i s.

(** [a.slice(-n)] on an array: its last [n] elements (all of them when
    there are fewer). *)
Definition slice_last {A : Type} (n : nat) (l : list A) : list A :=
  skipn (length l - n) l.

(** [s.replace(/\r\n/g, "\n")] *)
Fixpoint replace_crlf (s : jsstring) : jsstring :=
  match s with
  | [] => []
  | c :: t =>
      match t with
      | d :: t' =>
          if N.eqb c CR && N.eqb d LF then LF :: replace_crlf t'
          else c :: replace_crlf t
      | [] => [c]
      end
  end.

(** [s.split("\n")]: never empty, [""] splits into [[""]]. *)
Fixpoint split_lf (s : jsstring) : list jsstring :=
  match s with
  | [] => [[]]
  | c :: t =>
      if N.eqb c LF then [] :: split_lf t
      else match split_lf t with
           | l :: ls => (c :: l) :: ls
           | [] => [[c]]
           end
  end.

(** ECMAScript WhiteSpace and LineTerminator code points, the ones
    [trim] and [trimStart] strip. *)
Definition is_js_space (c : codeunit) : bool :=
  ((9 <=? c) && (c <=? 13) || (c =? 32) || (c =? 160) || (c =? 5760)
   || (8192 <=? c) && (c <=? 8202) || (c =? 8232) || (c =? 8233)
   || (c =? 8239) || (c =? 8287) || (c =? 12288) || (c =? 65279))%N.

(** [s.trimStart()] *)
Fixpoint trimStart (s : jsstring) : jsstring :=
  match s with
  | c :: t => if is_js_space c then trimStart t else s
  | [] => []
  end.

(** [s.trimEnd()] *)
Definition trimEnd (s : jsstring) : jsstring := rev (trimStart (rev s)).

(** [s.trim()] *)
Definition trim (s : jsstring) : jsstring := trimEnd (trimStart s).

End JsString.
Export JsString.

(* ===================================================================== *)
(** * JSON values *)
(* ===================================================================== *)

Module Json.

(** What [JSON.parse] can return.  A number is kept as the decimal it was
    written as, [mantissa * 10 ^ exponent]; the agent only ever asks
    whether it is truthy.  An object keeps its members in source order. *)
Inductive JSON : Type :=
| JNull
| JBool (b : bool)
| JNum (mantissa exponent : Z)
| JStr (s : jsstring)
| JArr (items : list JSON)
| JObj (members : list (jsstring * JSON)).

(** Own-property lookup in a member list; a repeated key keeps its last
    value, as [JSON.parse] does. *)
Fixpoint lookup (key : jsstring) (ms : list (jsstring * JSON)) : option JSON :=
  match ms with
  | [] => None
  | (k, v) :: rest =>
      match lookup key rest with
      | Some v' => Some v'
      | None => if jseqb k key then Some v else None
      end
  end.

(** [v?.key] for the keys the agent reads ([type], [text], [model],
    [response]): [None] is [undefined].  Only objects carry them; null,
    booleans, numbers, strings and arrays have no such property. *)
Definition prop (key : jsstring) (v : JSON) : option JSON :=
  match v with
  | JObj ms => lookup key ms
  | _ => None
  end.

(** A decimal [m * 10 ^ e] is read as the nearest double; it is zero
    exactly when its magnitude is at most [2 ^ -1075], half the least
    subnormal. *)
Definition num_is_zero (m e : Z) : bool :=
  if (0 <=? e)%Z then (m =? 0)%Z
  else (Z.abs m * 2 ^ 1075 <=? 10 ^ (- e))%Z.

(** JavaScript truthiness of a possibly-undefined value. *)
Definition truthy (v : option JSON) : bool :=
  match v with
  | None => false
  | Some JNull => false
  | Some (JBool b) => b
  | Some (JNum m e) => negb (num_is_zero m e)
  | Some (JStr s) => negb (isEmpty s)
  | Some (JArr _) => true
  | Some (JObj _) => true
  end.

(** [v === "lit"] for a possibly-undefined value and a string literal. *)
Definition is_string (lit : jsstring) (v : option JSON) : bool :=
  match v with
  | Some (JStr s) => jseqb s lit
  | _ => false
  end.

(** ** The parser (ECMA-404 grammar, as [JSON.parse] accepts it) *)

Definition is_json_ws (c : codeunit) : bool :=
  ((c =? 32) || (c =? 9) || (c =? 10) || (c =? 13))%N.

Fixpoint skip_ws (s : jsstring) : jsstring :=
  match s with
  | c :: t => if is_json_ws c then skip_ws t else s
  | [] => []
  end.

Definition is_digit (c : codeunit) : bool := ((48 <=? c) && (c <=? 57))%N.

Definition hex_digit (c : codeunit) : option N :=
  if is_digit c then Some (c - 48)%N
  else if ((97 <=? c) && (c <=? 102))%N then Some (c - 87)%N
  else if ((65 <=? c) && (c <=? 70))%N then Some (c - 55)%N
  else None.

Definition hex4 (a b c d : codeunit) : option codeunit :=
  match hex_digit a, hex_digit b, hex_digit c, hex_digit d with
  | Some x, Some y, Some z, Some w => Some (((x * 16 + y) * 16 + z) * 16 + w)%N
  | _, _, _, _ => None
  end.

(** The character a one-letter escape denotes. *)
Definition simple_escape (c : codeunit) : option codeunit :=
  if (c =? 34)%N then Some 34%N          (* quote *)
  else if (c =? 92)%N then Some 92%N     (* backslash *)
  else if (c =? 47)%N then Some 47%N     (* slash *)
  else if (c =? 98)%N then Some 8%N      (* backspace *)
  else if (c =? 102)%N then Some 12%N    (* form feed *)
  else if (c =? 110)%N then Some 10%N    (* line feed *)
  else if (c =? 114)%N then Some 13%N    (* carriage return *)
  else if (c =? 116)%N then Some 9%N     (* tab *)
  else None.

(** The rest of a string literal after its opening quote: the decoded
    string (accumulated in reverse) and what follows the closing quote. *)
Fixpoint parse_string_body (s acc : jsstring) : option (jsstring * jsstring) :=
  match s with
  | [] => None
  | c :: t =>
      if (c =? 34)%N then Some (rev acc, t)
      else if (c =? 92)%N then
        match t with
        | [] => None
        | e :: t1 =>
            if (e =? 117)%N then
              match t1 with
              | h1 :: h2 :: h3 :: h4 :: t2 =>
                  match hex4 h1 h2 h3 h4 with
                  | Some u => parse_string_body t2 (u :: acc)
                  | None => None
                  end
              | _ => None
              end
            else
              match simple_escape e with
              | Some u => parse_string_body t1 (u :: acc)
              | None => None
              end
        end
      else if (c <? 32)%N then None
      else parse_string_body t (c :: acc)
  end.

(** The longest prefix of digits, and the rest. *)
Fixpoint take_digits (s : jsstring) : list codeunit * jsstring :=
  match s with
  | c :: t =>
      if is_digit c then let (ds, r) := take_digits t in (c :: ds, r)
      else ([], s)
  | [] => ([], [])
  end.

Definition digits_value (ds : list codeunit) : Z :=
  fold_left (fun acc d => (acc * 10 + Z.of_N (d - 48))%Z) ds 0%Z.

(** The integer part: a lone 0, or digits not starting with 0. *)
Definition parse_int (s : jsstring) : option (list codeunit * jsstring) :=
  match s with
  | c :: t =>
      if (c =? 48)%N then Some ([c], t)
      else if is_digit c then Some (take_digits s)
      else None
  | [] => None
  end.

Definition parse_frac (s : jsstring) : option (list codeunit * jsstring) :=
  match s with
  | c :: t =>
      if (c =? 46)%N then
        match take_digits t with
        | ([], _) => None
        | (ds, r) => Some (ds, r)
        end
      else Some ([], s)
  | [] => Some ([], [])
  end.

Definition parse_exp (s : jsstring) : option (Z * jsstring) :=
  match s with
  | c :: t =>
      if ((c =? 101) || (c =? 69))%N then
        let '(neg, t1) :=
          match t with
          | sg :: t' =>
              if (sg =? 45)%N then (true, t')
              else if (sg =? 43)%N then (false, t')
              else (false, t)
          | [] => (false, t)
          end in
        match take_digits t1 with
        | ([], _) => None
        | (ds, r) => Some (if neg then (- digits_value ds)%Z else digits_value ds, r)
        end
      else Some (0%Z, s)
  | [] => Some (0%Z, [])
  end.

Definition parse_number (s : jsstring) : option (JSON * jsstring) :=
  let '(neg, s1) :=
    match s with
    | c :: t => if (c =? 45)%N then (true, t) else (false, s)
    | [] => (false, s)
    end in
  match parse_int s1 with
  | None => None
  | Some (ip, s2) =>
      match parse_frac s2 with
      | None => None
      | Some (fp, s3) =>
          match parse_exp s3 with
          | None => None
          | Some (ex, s4) =>
              let m := digits_value (ip ++ fp) in
              Some (JNum (if neg then (- m)%Z else m)
                         (ex - Z.of_nat (length fp))%Z, s4)
          end
      end
  end.

Definition parse_literal (s : jsstring) : option (JSON * jsstring) :=
  if startsWith (js "true") s then Some (JBool true, skipn 4 s)
  else if startsWith (js "false") s then Some (JBool false, skipn 5 s)
  else if startsWith (js "null") s then Some (JNull, skipn 4 s)
  else parse_number s.

(** A value, the elements of an array after its first position, and the
    members of an object; [fuel] bounds the nesting and the lengths. *)
Fixpoint parse_value (fuel : nat) (s : jsstring) {struct fuel}
  : option (JSON * jsstring) :=
  match fuel with
  | O => None
  | S f =>
      match skip_ws s with
      | [] => None
      | c :: t =>
          if (c =? 123)%N then
            match skip_ws t with
            | c' :: t' =>
                if (c' =? 125)%N then Some (JObj [], t')
                else parse_members f (c' :: t') []
            | [] => None
            end
          else if (c =? 91)%N then
            match skip_ws t with
            | c' :: t' =>
                if (c' =? 93)%N then Some (JArr [], t')
                else parse_elements f (c' :: t') []
            | [] => None
            end
          else if (c =? 34)%N then
            match parse_string_body t [] with
            | Some (str, r) => Some (JStr str, r)
            | None => None
            end
          else parse_literal (c :: t)
      end
  end

with parse_elements (fuel : nat) (s : jsstring) (acc : list JSON) {struct fuel}
  : option (JSON * jsstring) :=
  match fuel with
  | O => None
  | S f =>
      match parse_value f s with
      | None => None
      | Some (v, r) =>
          match skip_ws r with
          | c :: t =>
              if (c =? 44)%N then parse_elements f t (v :: acc)
              else if (c =? 93)%N then Some (JArr (rev (v :: acc)), t)
              else None
          | [] => None
          end
      end
  end

with parse_members (fuel : nat) (s : jsstring) (acc : list (jsstring * JSON))
                   {struct fuel}
  : option (JSON * jsstring) :=
  match fuel with
  | O => None
  | S f =>
      match skip_ws s with
      | c :: t =>
          if (c =? 34)%N then
            match parse_string_body t [] with
            | None => None
            | Some (k, r) =>
                match skip_ws r with
                | c2 :: t2 =>
                    if (c2 =? 58)%N then
                      match parse_value f t2 with
                      | None => None
                      | Some (v, r2) =>
                          match skip_ws r2 with
                          | c3 :: t3 =>
                              if (c3 =? 44)%N
                              then parse_members f t3 ((k, v) :: acc)
                              else if (c3 =? 125)%N
                              then Some (JObj (rev ((k, v) :: acc)), t3)
                              else None
                          | [] => None
                          end
                      end
                    else None
                | [] => None
                end
            end
          else None
      | [] => None
      end
  end.

(** [JSON.parse(text)]: [None] when it throws a SyntaxError. *)
Definition parse (text : jsstring) : option JSON :=
  match parse_value (2 * length text + 2) text with
  | Some (v, r) => if isEmpty (skip_ws r) then Some v else None
  | None => None
  end.

End Json.
Export Json.

(* ===================================================================== *)
(** * The UTF-8 decoder of [TextDecoder] *)
(* ===================================================================== *)

Module Utf8.

(** The decoder of the WHATWG Encoding standard, one byte at a time.  Its
    state survives between [decode(chunk, {stream: true})] calls, so a
    sequence cut by a chunk boundary is completed by the next chunk. *)
Record decoder : Type := {
  code_point : N;
  bytes_needed : nat;
  bytes_seen : nat;
  lower_boundary : N;
  upper_boundary : N;
  bom_seen : bool
}.

Definition fresh : decoder :=
  {| code_point := 0; bytes_needed := 0; bytes_seen := 0;
     lower_boundary := 128; upper_boundary := 191; bom_seen := false |}.

Definition idle (d : decoder) : decoder :=
  {| code_point := 0; bytes_needed := 0; bytes_seen := 0;
     lower_boundary := 128; upper_boundary := 191; bom_seen := bom_seen d |}.

Definition expecting (d : decoder) (cp : N) (n : nat) (lo hi : N) : decoder :=
  {| code_point := cp; bytes_needed := n; bytes_seen := 0;
     lower_boundary := lo; upper_boundary := hi; bom_seen := bom_seen d |}.

(** A byte read while no sequence is open: the code points it yields. *)
Definition lead (d : decoder) (b : N) : decoder * list N :=
  (if b <=? 127 then (idle d, [b])
   else if (194 <=? b) && (b <=? 223)
   then (expecting d (N.land b 31) 1 128 191, [])
   else if (224 <=? b) && (b <=? 239)
   then (expecting d (N.land b 15) 2
                   (if b =? 224 then 160 else 128)
                   (if b =? 237 then 159 else 191), [])
   else if (240 <=? b) && (b <=? 244)
   then (expecting d (N.land b 7) 3
                   (if b =? 240 then 144 else 128)
                   (if b =? 244 then 143 else 191), [])
   else (idle d, [65533]))%N.

(** One byte: a continuation out of range closes the open sequence with
    U+FFFD and is then read again as a leading byte. *)
Definition byte_step (d : decoder) (b : N) : decoder * list N :=
  match bytes_needed d with
  | O => lead d b
  | S _ =>
      if negb ((lower_boundary d <=? b) && (b <=? upper_boundary d))%N
      then let (d', out) := lead (idle d) b in (d', 65533%N :: out)
      else
        let cp := N.lor (N.shiftl (code_point d) 6) (N.land b 63) in
        if Nat.eqb (S (bytes_seen d)) (bytes_needed d)
        then (idle d, [cp])
        else ({| code_point := cp; bytes_needed := bytes_needed d;
                 bytes_seen := S (bytes_seen d);
                 lower_boundary := 128; upper_boundary := 191;
                 bom_seen := bom_seen d |}, [])
  end.

(** A code point as UTF-16 code units. *)
Definition utf16 (cp : N) : jsstring :=
  (if cp <? 65536 then [cp]
   else [55296 + N.shiftr (cp - 65536) 10; 56320 + N.land (cp - 65536) 1023])%N.

(** The first code point of the stream is dropped when it is the byte
    order mark ([ignoreBOM] is false by default). *)
Fixpoint emit_code_points (seen : bool) (cps : list N) : bool * jsstring :=
  match cps with
  | [] => (seen, [])
  | cp :: rest =>
      let (seen', out) := emit_code_points true rest in
      (seen', if negb seen && (cp =? 65279)%N then out else utf16 cp ++ out)
  end.

Definition step (d : decoder) (b : byte) : decoder * jsstring :=
  let (d1, cps) := byte_step d (Byte.to_N b) in
  let (seen, out) := emit_code_points (bom_seen d1) cps in
  ({| code_point := code_point d1; bytes_needed := bytes_needed d1;
      bytes_seen := bytes_seen d1; lower_boundary := lower_boundary d1;
      upper_boundary := upper_boundary d1; bom_seen := seen |}, out).

End Utf8.

(* ===================================================================== *)
(** * The runtime the agent is written against *)
(* ===================================================================== *)

(** [JSON.parse], [new TextDecoder()] with its per-byte transition, and the
    clock: [Date_now n] is what the [n]-th call of [Date.now()] returns. *)
Class Platform : Type := {
  JSON_parse : jsstring -> option JSON;
  TextDecoder : Type;
  TextDecoder_new : TextDecoder;
  TextDecoder_byte : TextDecoder -> byte -> TextDecoder * jsstring;
  Date_now : nat -> Z
}.

(** [decoder.decode(chunk, {stream: true})] *)
Fixpoint decode `{Platform} (d : TextDecoder) (chunk : list byte)
  : TextDecoder * jsstring :=
  match chunk with
  | [] => (d, [])
  | b :: rest =>
      let (d1, out1) := TextDecoder_byte d b in
      let (d2, out2) := decode d1 rest in
      (d2, out1 ++ out2)
  end.

(** The standard runtime, with a clock that starts at [t0] and advances by
    one millisecond every [S rate] readings. *)
Definition standard_platform (t0 : Z) (rate : nat) : Platform :=
  {| JSON_parse := Json.parse;
     TextDecoder := Utf8.decoder;
     TextDecoder_new := Utf8.fresh;
     TextDecoder_byte := Utf8.step;
     Date_now := fun n => (t0 + Z.of_nat (n / S rate))%Z |}.

(** The bytes of an ASCII text. *)
Definition ascii_bytes (s : jsstring) : list byte :=
  map (fun c => match Byte.of_N c with Some b => b | None => x00 end) s.

(* ===================================================================== *)
(** * The agent *)
(* ===================================================================== *)

(** ** Data *)

(** The role strings.  A stored row ([Msg]) is a user, assistant or tool
    row; a turn sent to the model ([AiChatMessage]) is a system, user or
    assistant turn. *)
Inductive Role : Type := system | user | assistant | tool.

Record AiChatMessage : Type := { ai_role : Role; ai_content : jsstring }.

(** Single row we store (and mirror in state). *)
Record Msg : Type := { role : Role; content : jsstring; ts : Z }.

(** Durable Object state.  The type annotations of the source are erased at
    run time and [model] receives whatever truthy value a [model] command
    carries, so it is a JSON value here. *)
Record State : Type := {
  model : JSON;
  messages : list Msg;
  createdAt : Z;
  expiresAt : Z
}.

Definition DAY : Z := 86400000.
Definition DEFAULT_MODEL : jsstring := js "@cf/meta/llama-4-scout-17b-16e-instruct".
Definition SYSTEM_PROMPT : jsstring :=
  js "You are a helpful, concise chat agent. Keep replies short unless the user requests detail.".
Definition STREAM_ERROR : jsstring := js "_(stream error)_".
Definition NO_RESPONSE : jsstring := js "[no response]".

(** ** The inference backend *)

(** A byte stream as its reader sees it: the chunks [read()] resolves with,
    then either [{done: true}] or a rejection. *)
Inductive StreamEnd : Type := Closed | Errored.
Record ByteStream : Type := { chunks : list (list byte); ending : StreamEnd }.

(** What [ai.run] resolves with: a readable stream, a string, or anything
    else (undefined, null, an object without [getReader], ...). *)
Inductive AiOutput : Type :=
| OutStream (s : ByteStream)
| OutString (s : jsstring)
| OutOther.

Inductive AiResult : Type := Resolves (out : AiOutput) | Rejects.

(** The [AI] binding: [run(model, {messages, stream: true})]. *)
Definition AiBinding : Type := JSON -> list AiChatMessage -> AiResult.

(** ** Connections, events and the trace *)

Definition Connection : Type := nat.

(** The JSON objects the agent sends, by their [type]. *)
Inductive Event : Type :=
| Ready (s : State)
| Delta (text : jsstring)
| Done
| Cleared.

(** What a handler does to the outside, in the order it does it. *)
Inductive Effect : Type :=
| SqlCreateTable
| SqlSelect
| SqlInsert (row : Msg)
| SqlDelete
| SetState (s : State)
| Send (conn : Connection) (e : Event)
| AiRun (m : JSON) (turns : list AiChatMessage)
| Uncaught (what : string).

(** One Durable Object: [this.state], the rows of its [messages] table in
    rowid (insertion) order, the number of [Date.now()] calls made so far,
    the attached connections, and the trace of effects. *)
Record World : Type := {
  state : State;
  table : list Msg;
  tick : nat;
  conns : list Connection;
  log : list Effect
}.

(** What an incoming WebSocket message can be. *)
Inductive Inbound : Type := Text (s : jsstring) | Binary.

(** ** Helpers *)

Definition isReadableStream (x : AiOutput) : bool :=
  match x with OutStream _ => true | _ => false end.

Definition isUserOrAssistant (m : Msg) : bool :=
  match role m with user | assistant => true | _ => false end.

(** [typeof json?.response === "string" ? json.response : ""] *)
Definition response_text (json : JSON) : jsstring :=
  match prop (js "response") json with
  | Some (JStr s) => s
  | _ => []
  end.

(** [isReadableStream(out) ? out : null] *)
Definition as_stream (out : AiOutput) : option ByteStream :=
  match out with OutStream s => Some s | _ => None end.

(** Modelled from the spec: the Store's [SELECT ... ORDER BY ts ASC].  The
    engine is not part of the repository; rows are ordered by [ts] and rows
    with equal [ts] keep their insertion order (the data model's "persisted
    insertion order is the real tiebreak"). *)
Fixpoint insert_by_ts (m : Msg) (sorted : list Msg) : list Msg :=
  match sorted with
  | [] => [m]
  | x :: rest =>
      if (ts x <=? ts m)%Z then x :: insert_by_ts m rest else m :: x :: rest
  end.

(** Modelled from the spec: [selectAllOrderedByTime], the rows by ascending
    timestamp, taken in insertion order and each placed after the rows that
    are not newer than it. *)
Definition select_ordered (rows : list Msg) : list Msg :=
  fold_left (fun acc m => insert_by_ts m acc) rows [].

Definition emit (e : Effect) (w : World) : World :=
  {| state := state w; table := table w; tick := tick w; conns := conns w;
     log := log w ++ [e] |}.

(** [conn.send(JSON.stringify(e))] *)
Definition send (conn : Connection) (e : Event) (w : World) : World :=
  emit (Send conn e) w.

(** [this.setState(s)] *)
Definition setState (s : State) (w : World) : World :=
  emit (SetState s)
       {| state := s; table := table w; tick := tick w; conns := conns w;
          log := log w |}.

(** [INSERT INTO messages (role, content, ts) VALUES (...)] *)
Definition sql_insert (row : Msg) (w : World) : World :=
  emit (SqlInsert row)
       {| state := state w; table := table w ++ [row]; tick := tick w;
          conns := conns w; log := log w |}.

(** [DELETE FROM messages] *)
Definition sql_delete (w : World) : World :=
  emit SqlDelete
       {| state := state w; table := []; tick := tick w; conns := conns w;
          log := log w |}.

(** The framework registers a connection before calling [onConnect]. *)
Definition attach (conn : Connection) (w : World) : World :=
  {| state := state w; table := table w; tick := tick w;
     conns := conns w ++ [conn]; log := log w |}.

Section Agent.

Context `{Platform}.

(** [Date.now()] *)
Definition now (w : World) : Z * World :=
  (Date_now (tick w),
   {| state := state w; table := table w; tick := S (tick w);
      conns := conns w; log := log w |}).

Definition initialState : State :=
  {| model := JStr DEFAULT_MODEL;
     messages := [];
     createdAt := Date_now 0;
     expiresAt := (Date_now 1 + DAY)%Z |}.

(** A freshly built instance over the rows an earlier one left behind. *)
Definition new_world (rows : list Msg) : World :=
  {| state := initialState; table := rows; tick := 2; conns := []; log := [] |}.

(** [#schema()]: the table is created when absent; an absent table and
    an empty one are the same list of rows. *)
Definition schema (w : World) : World := emit SqlCreateTable w.

Definition onConnect (conn : Connection) (w : World) : World :=
  let w := schema (attach conn w) in
  let w :=
    match messages (state w) with
    | [] =>
        let rows := select_ordered (table w) in
        let w := emit SqlSelect w in
        let (t, w) := now w in
        setState {| model := model (state w);
                    messages := rows;
                    createdAt := createdAt (state w);
                    expiresAt := (t + DAY)%Z |} w
    | _ :: _ => w
    end in
  send conn (Ready (state w)) w.

(** ** Persistence helper *)

Definition saveAssistant (conn : Connection) (text : jsstring) (w : World)
  : World :=
  let (t, w) := now w in
  let row := {| role := assistant; content := text; ts := t |} in
  let w := sql_insert row w in
  let (t', w) := now w in
  setState {| model := model (state w);
              messages := messages (state w) ++ [row];
              createdAt := createdAt (state w);
              expiresAt := (t' + DAY)%Z |} w.

(** ** Streaming chat *)

(** The body of the [for (const line of ...)] loop, on the running text
    [full] and the world. *)
Definition on_line (conn : Connection) (acc : jsstring * World)
           (line : jsstring) : jsstring * World :=
  let (full, w) := acc in
  if negb (startsWith (js "data:") line) then acc
  else
    let payload := trimStart (slice_from 5 line) in
    if isEmpty payload || jseqb payload (js "[DONE]") then acc
    else
      match JSON_parse payload with
      | Some json =>
          let piece := response_text json in
          if negb (isEmpty piece)
          then (full ++ piece, send conn (Delta piece) w)
          else acc
      | None =>
          (full ++ payload, send conn (Delta payload) w)
      end.

(** The inner [while ((idx = buffer.indexOf("\n\n")) !== -1)] loop; every
    round removes at least two code units from [buffer], so [fuel] larger
    than its length is never exhausted. *)
Fixpoint drain (fuel : nat) (conn : Connection) (full buffer : jsstring)
         (w : World) : jsstring * jsstring * World :=
  match fuel with
  | O => (full, buffer, w)
  | S fuel' =>
      match indexOf [LF; LF] buffer with
      | None => (full, buffer, w)
      | Some idx =>
          let frame := slice_to idx buffer in
          let buffer' := slice_from (idx + 2) buffer in
          let (full', w') :=
            fold_left (on_line conn) (split_lf (replace_crlf frame)) (full, w) in
          drain fuel' conn full' buffer' w'
      end
  end.

(** The outer [while (true)] loop over [reader.read()]: the flag tells
    whether it was left by a rejection rather than by [done]. *)
Fixpoint read_loop (conn : Connection) (pending : list (list byte))
         (e : StreamEnd) (full buffer : jsstring) (d : TextDecoder)
         (w : World) : bool * jsstring * World :=
  match pending with
  | [] =>
      match e with
      | Closed => (false, full, w)
      | Errored => (true, full, w)
      end
  | value :: rest =>
      let (d', text) := decode d value in
      let buffer := buffer ++ text in
      let '(full', buffer', w') := drain (S (length buffer)) conn full buffer w in
      read_loop conn rest e full' buffer' d' w'
  end.

(** [full || "_(stream error)_"] *)
Definition or_stream_error (full : jsstring) : jsstring :=
  if isEmpty full then STREAM_ERROR else full.

Definition streamAssistant (ai : AiBinding) (conn : Connection)
           (turns : list AiChatMessage) (w : World) : World :=
  let m := if truthy (Some (model (state w)))
           then model (state w) else JStr DEFAULT_MODEL in
  let w := emit (AiRun m turns) w in
  match ai m turns with
  | Rejects =>
      (* catch, finally, then the save after the try statement *)
      let full := or_stream_error [] in
      let w := send conn Done w in
      saveAssistant conn full w
  | Resolves out =>
      match as_stream out with
      | None =>
          let text := match out with OutString s => s | _ => NO_RESPONSE end in
          let w := saveAssistant conn text w in
          (* return: only the finally block still runs *)
          send conn Done w
      | Some stream =>
          let '(threw, full, w) :=
            read_loop conn (chunks stream) (ending stream) [] []
                      TextDecoder_new w in
          let full := if threw then or_stream_error full else full in
          let w := send conn Done w in
          saveAssistant conn full w
      end
  end.

(** ** Command dispatch *)

Definition onMessage (ai : AiBinding) (conn : Connection)
           (message : Inbound) (w : World) : World :=
  match message with
  | Binary => w
  | Text text =>
      match JSON_parse text with
      | None => w
      | Some data =>
          let type := prop (js "type") data in
          if negb (truthy type) then w
          else if is_string (js "model") type && truthy (prop (js "model") data)
          then
            match prop (js "model") data with
            | Some m =>
                let (t, w) := now w in
                setState {| model := m;
                            messages := messages (state w);
                            createdAt := createdAt (state w);
                            expiresAt := (t + DAY)%Z |} w
            | None => w
            end
          else if is_string (js "reset") type
          then
            let w := sql_delete w in
            let (t, w) := now w in
            let (t', w) := now w in
            let w := setState {| model := model (state w);
                                 messages := [];
                                 createdAt := t;
                                 expiresAt := (t' + 86400000)%Z |} w in
            send conn Cleared w
          else if is_string (js "chat") type
          then
            let text := prop (js "text") data in
            match (if truthy text then text else Some (JStr [])) with
            | Some (JStr s) =>
                let userText := trim s in
                if isEmpty userText then w
                else
                  let (t, w) := now w in
                  let userMsg := {| role := user; content := userText; ts := t |} in
                  let w := sql_insert userMsg w in
                  let (t', w) := now w in
                  let w := setState {| model := model (state w);
                                       messages := messages (state w) ++ [userMsg];
                                       createdAt := createdAt (state w);
                                       expiresAt := (t' + DAY)%Z |} w in
                  let recentUA :=
                    filter isUserOrAssistant (slice_last 40 (messages (state w))) in
                  let history :=
                    map (fun m => {| ai_role := role m; ai_content := content m |})
                        recentUA in
                  let payload :=
                    [{| ai_role := system; ai_content := SYSTEM_PROMPT |}]
                      ++ history
                      ++ [{| ai_role := user; ai_content := userText |}] in
                  streamAssistant ai conn payload w
            | _ =>
                (* [.trim] of a truthy non-string: TypeError *)
                emit (Uncaught "TypeError") w
            end
          else w
      end
  end.

(** A session as a sequence of framework callbacks. *)
Inductive Callback : Type :=
| Connect (conn : Connection)
| Message (ai : AiBinding) (conn : Connection) (message : Inbound).

Definition handle (w : World) (cb : Callback) : World :=
  match cb with
  | Connect conn => onConnect conn w
  | Message ai conn message => onMessage ai conn message w
  end.

Definition run (w : World) (cbs : list Callback) : World :=
  fold_left handle cbs w.

End Agent.

(* ===================================================================== *)
(** * The stream in the words of the specification *)
(* ===================================================================== *)

Definition LFLF : jsstring := [LF; LF].

(** The frames of a text that are closed by a blank line, in order.  A
    frame ends at the first two consecutive line feeds after its start. *)
Fixpoint complete_frames (s : jsstring) : list jsstring :=
  match s with
  | [] => []
  | c :: t =>
      match t with
      | d :: t' =>
          if N.eqb c LF && N.eqb d LF then [] :: complete_frames t'
          else match complete_frames t with
               | f :: fs => (c :: f) :: fs
               | [] => []
               end
      | [] => []
      end
  end.

(** What follows the last complete frame: the part still being buffered. *)
Fixpoint trailing (s : jsstring) : jsstring :=
  match s with
  | [] => []
  | c :: t =>
      match t with
      | d :: t' =>
          if N.eqb c LF && N.eqb d LF then trailing t'
          else match complete_frames t with
               | _ :: _ => trailing t
               | [] => s
               end
      | [] => s
      end
  end.

Section Fragments.

Context `{Platform}.

(** The payload of a line that begins with the data prefix; the sentinel
    and the empty payload are left out. *)
Definition line_payload (line : jsstring) : list jsstring :=
  if startsWith (js "data:") line then
    let payload := trimStart (slice_from 5 line) in
    if isEmpty payload || jseqb payload (js "[DONE]") then []
    else [payload]
  else [].

(** The payloads of the data lines of a frame. *)
Definition data_payloads (frame : jsstring) : list jsstring :=
  flat_map line_payload (split_lf (replace_crlf frame)).

(** The fragment text a payload carries: the [response] string of a
    structured fragment (empty when it has none), or the raw payload when
    it does not parse. *)
Definition fragment_text (payload : jsstring) : jsstring :=
  match JSON_parse payload with
  | Some json => response_text json
  | None => payload
  end.

(** The text a byte sequence decodes to. *)
Definition decoded (bytes : list byte) : jsstring :=
  snd (decode TextDecoder_new bytes).

(** The fragment texts F1..Fn of a backend byte stream: those of the data
    lines of its complete frames, whatever way it is cut into chunks. *)
Definition stream_fragments (s : list (list byte)) : list jsstring :=
  map fragment_text
      (flat_map data_payloads (complete_frames (decoded (concat s)))).

End Fragments.

(* ===================================================================== *)
(** * Reading the trace *)
(* ===================================================================== *)

(** What a handler added to the trace. *)
Definition effects_of (before after : World) : list Effect :=
  skipn (length (log before)) (log after).

(** The events sent to one connection, in order. *)
Definition events_to (conn : Connection) (es : list Effect) : list Event :=
  flat_map (fun e => match e with
                     | Send c ev => if Nat.eqb c conn then [ev] else []
                     | _ => []
                     end) es.

(** All events sent, to whomever. *)
Definition events (es : list Effect) : list Event :=
  flat_map (fun e => match e with Send _ ev => [ev] | _ => [] end) es.

(** The texts of the [delta] events among some events. *)
Definition delta_texts (evs : list Event) : list jsstring :=
  flat_map (fun ev => match ev with Delta t => [t] | _ => [] end) evs.

Definition is_done (ev : Event) : bool :=
  match ev with Done => true | _ => false end.

(** The position of the first effect satisfying [p]. *)
Fixpoint position (p : Effect -> bool) (es : list Effect) : option nat :=
  match es with
  | [] => None
  | e :: rest => if p e then Some 0 else option_map S (position p rest)
  end.

Definition nonempty (s : jsstring) : bool := negb (isEmpty s).

Definition emit_all (es : list Effect) (w : World) : World :=
  {| state := state w; table := table w; tick := tick w; conns := conns w;
     log := log w ++ es |}.

Definition delta_sends (conn : Connection) (ps : list jsstring) : list Effect :=
  map (fun p => Send conn (Delta p)) ps.

Section Increments.

Context `{Platform}.

(** The increments a frame contributes: its non-empty fragment texts. *)
Definition frame_pieces (frame : jsstring) : list jsstring :=
  filter nonempty (map fragment_text (data_payloads frame)).

(** The frames the read loop meets, chunk after chunk. *)
Fixpoint read_frames (pending : list (list byte)) (buffer : jsstring)
         (d : TextDecoder) : list jsstring :=
  match pending with
  | [] => []
  | value :: rest =>
      let (d', text) := decode d value in
      complete_frames (buffer ++ text)
        ++ read_frames rest (trailing (buffer ++ text)) d'
  end.

Definition errored (e : StreamEnd) : bool :=
  match e with Closed => false | Errored => true end.

(** The increments of a whole stream. *)
Definition stream_pieces (s : list (list byte)) : list jsstring :=
  flat_map frame_pieces (read_frames s [] TextDecoder_new).

End Increments.

(* ===================================================================== *)
(** * Commands and the worlds they leave *)
(* ===================================================================== *)

Section Outcomes.

Context `{Platform}.

(** A [chat] command whose text trims to the non-empty [userText]. *)
Definition chat_command (message : Inbound) (userText : jsstring) : Prop :=
  exists text data s,
    message = Text text
    /\ JSON_parse text = Some data
    /\ prop (js "type") data = Some (JStr (js "chat"))
    /\ prop (js "text") data = Some (JStr s)
    /\ trim s = userText
    /\ userText <> [].

(** A [reset] command. *)
Definition reset_command (message : Inbound) : Prop :=
  exists text data,
    message = Text text
    /\ JSON_parse text = Some data
    /\ prop (js "type") data = Some (JStr (js "reset")).

(** The [type] values the dispatch knows. *)
Definition recognized (type : option JSON) : Prop :=
  type = Some (JStr (js "chat"))
  \/ type = Some (JStr (js "reset"))
  \/ type = Some (JStr (js "model")).

(** The row an append creates now, and the world after the append: the
    row inserted, then mirrored, with [expiresAt] refreshed. *)
Definition new_row (r : Role) (text : jsstring) (w : World) : Msg :=
  {| role := r; content := text; ts := Date_now (tick w) |}.

Definition state_with (row : Msg) (w : World) : State :=
  {| model := model (state w);
     messages := messages (state w) ++ [row];
     createdAt := createdAt (state w);
     expiresAt := (Date_now (S (tick w)) + DAY)%Z |}.

Definition appended (r : Role) (text : jsstring) (w : World) : World :=
  let row := new_row r text w in
  {| state := state_with row w;
     table := table w ++ [row];
     tick := S (S (tick w));
     conns := conns w;
     log := log w ++ [SqlInsert row; SetState (state_with row w)] |}.

(** The model identifier handed to the backend. *)
Definition model_arg (w : World) : JSON :=
  if truthy (Some (model (state w))) then model (state w)
  else JStr DEFAULT_MODEL.

Definition user_turn (userText : jsstring) : AiChatMessage :=
  {| ai_role := user; ai_content := userText |}.

Definition system_turn : AiChatMessage :=
  {| ai_role := system; ai_content := SYSTEM_PROMPT |}.

(** The turn list a chat command builds in world [w]. *)
Definition chat_turns (userText : jsstring) (w : World) : list AiChatMessage :=
  [system_turn]
    ++ map (fun m => {| ai_role := role m; ai_content := content m |})
           (filter isUserOrAssistant
                   (slice_last 40 (messages (state w) ++ [new_row user userText w])))
    ++ [user_turn userText].

(** What the backend answers to a chat command received in world [w]. *)
Definition backend_reply (ai : AiBinding) (userText : jsstring) (w : World)
  : AiResult :=
  ai (model_arg w) (chat_turns userText w).

(** The increments relayed, and the text persisted, for a backend answer. *)
Definition reply_deltas (r : AiResult) : list jsstring :=
  match r with
  | Resolves (OutStream s) => stream_pieces (chunks s)
  | _ => []
  end.

Definition reply_text (r : AiResult) : jsstring :=
  match r with
  | Rejects => STREAM_ERROR
  | Resolves (OutStream s) =>
      let full := concat (stream_pieces (chunks s)) in
      if errored (ending s) then or_stream_error full else full
  | Resolves (OutString t) => t
  | Resolves OutOther => NO_RESPONSE
  end.

(** Whether the answer is saved by the early return of the non-stream
    branch. *)
Definition plain (r : AiResult) : bool :=
  match r with
  | Resolves (OutString _) | Resolves OutOther => true
  | _ => false
  end.

(** The world a reset leaves. *)
Definition after_reset (conn : Connection) (w : World) : World :=
  let st := {| model := model (state w);
               messages := [];
               createdAt := Date_now (tick w);
               expiresAt := (Date_now (S (tick w)) + DAY)%Z |} in
  {| state := st; table := []; tick := S (S (tick w)); conns := conns w;
     log := log w ++ [SqlDelete; SetState st; Send conn Cleared] |}.

(** The world a model change leaves. *)
Definition after_model (m : JSON) (w : World) : World :=
  let st := {| model := m;
               messages := messages (state w);
               createdAt := createdAt (state w);
               expiresAt := (Date_now (tick w) + DAY)%Z |} in
  {| state := st; table := table w; tick := S (tick w); conns := conns w;
     log := log w ++ [SetState st] |}.

(** The world a chat command leaves, for the answer [r] of the backend. *)
Definition after_chat (conn : Connection) (userText : jsstring)
           (r : AiResult) (w : World) : World :=
  let w1 := emit (AiRun (model_arg w) (chat_turns userText w))
                 (appended user userText w) in
  if plain r
  then send conn Done (appended assistant (reply_text r) w1)
  else appended assistant (reply_text r)
                (send conn Done
                      (emit_all (delta_sends conn (reply_deltas r)) w1)).

End Outcomes.

(** A [done] event leaves. *)
Definition done_sent (e : Effect) : bool :=
  match e with Send _ Done => true | _ => false end.

Definition is_assistant (m : Msg) : bool :=
  match role m with assistant => true | _ => false end.

(** An assistant message is written: inserted into the Store, or mirrored
    into the in-memory state as its newest message. *)
Definition assistant_written (e : Effect) : bool :=
  match e with
  | SqlInsert row => is_assistant row
  | SetState s =>
      match rev (messages s) with
      | newest :: _ => is_assistant newest
      | [] => false
      end
  | _ => false
  end.

(** The first [p] comes before the first [q]. *)
Definition before (p q : Effect -> bool) (es : list Effect) : Prop :=
  exists i j, position p es = Some i /\ position q es = Some j /\ i < j.

(** The effect is not an event for another connection than [conn]. *)
Definition addressed_to (conn : Connection) (e : Effect) : Prop :=
  match e with Send c _ => c = conn | _ => True end.

Section ChatTrace.

Context `{Platform}.

(** The assistant row of a chat command received in world [w]. *)
Definition assistant_row (r : AiResult) (w : World) : Msg :=
  {| role := assistant; content := reply_text r;
     ts := Date_now (S (S (tick w))) |}.

(** The effects of a chat command, written out. *)
Definition chat_effects (conn : Connection) (userText : jsstring)
           (r : AiResult) (w : World) : list Effect :=
  let u := new_row user userText w in
  let w1 := appended user userText w in
  let a := assistant_row r w in
  [SqlInsert u; SetState (state w1); AiRun (model_arg w) (chat_turns userText w)]
    ++ (if plain r
        then [SqlInsert a; SetState (state_with a w1); Send conn Done]
        else delta_sends conn (reply_deltas r)
               ++ [Send conn Done; SqlInsert a; SetState (state_with a w1)]).

End ChatTrace.

(* ===================================================================== *)
(** * The Store and its mirror *)
(* ===================================================================== *)

Section Consistency.

Context `{Platform}.

(** The in-memory log is what the Store selects. *)
Definition mirrored (w : World) : Prop :=
  messages (state w) = select_ordered (table w).

(** The clock never goes back. *)
Definition clock_monotone : Prop :=
  forall i j, i <= j -> (Date_now i <= Date_now j)%Z.

(** No stored row is stamped later than the next clock reading. *)
Definition rows_in_past (w : World) : Prop :=
  Forall (fun m => (ts m <= Date_now (tick w))%Z) (table w).

Definition consistent (w : World) : Prop := mirrored w /\ rows_in_past w.

End Consistency.

(* ===================================================================== *)
(** * Scenarios *)
(* ===================================================================== *)

(** The standard runtime with a clock that shows every millisecond four
    times, so that consecutive appends can receive equal timestamps. *)
Definition std : Platform := standard_platform 1700000000000 3.

Definition chat_hello : Inbound := Text (jsq "{'type':'chat','text':' hello '}").
Definition reset_message : Inbound := Text (jsq "{'type':'reset'}").
Definition unknown_message : jsstring := jsq "{'type':'unknown'}".
Definition empty_object : jsstring := jsq "{}".

(** A session with one connection, and the same with a second one. *)
Definition session1 : World := @onConnect std 1 (@new_world std []).
Definition session2 : World := @onConnect std 2 session1.

(** The stream of the end-to-end scenario: two frames in two chunks, then
    the sentinel. *)
Definition hi_there : ByteStream :=
  {| chunks :=
       [ascii_bytes (jsq "data: {'response':'Hi'}" ++ LFLF);
        ascii_bytes (jsq "data: {'response':' there'}" ++ LFLF
                         ++ js "data: [DONE]" ++ LFLF)];
     ending := Closed |}.

(** The same bytes cut in the middle of a frame, failing after the cut. *)
Definition hi_then_error : ByteStream :=
  {| chunks :=
       [ascii_bytes (jsq "data: {'response':'Hi'}" ++ LFLF ++ jsq "data: {'resp")];
     ending := Errored |}.

(** The same bytes delivered one per chunk. *)
Definition hi_there_bytewise : ByteStream :=
  {| chunks := map (fun b => [b]) (concat (chunks hi_there));
     ending := Closed |}.

(** A fragment with a two-byte character whose bytes arrive in different
    chunks, the blank line cut in two as well. *)
Definition split_character : ByteStream :=
  {| chunks :=
       [ascii_bytes (jsq "data: {'response':'caf") ++ [xc3];
        [xa9] ++ ascii_bytes (jsq "'}" ++ [LF]);
        ascii_bytes [LF]];
     ending := Closed |}.

(** A frame whose fragment text is empty. *)
Definition empty_fragment : ByteStream :=
  {| chunks := [ascii_bytes (jsq "data: {'response':''}" ++ LFLF)];
     ending := Closed |}.

Definition streaming (s : ByteStream) : AiBinding :=
  fun _ _ => Resolves (OutStream s).
Definition answering (t : jsstring) : AiBinding :=
  fun _ _ => Resolves (OutString t).
Definition answering_object : AiBinding := fun _ _ => Resolves OutOther.
Definition failing : AiBinding := fun _ _ => Rejects.

(** The turn lists handed to the backend. *)
Definition ai_calls (es : list Effect) : list (list AiChatMessage) :=
  flat_map (fun e => match e with AiRun _ turns => [turns] | _ => [] end) es.

(** Rows left by an earlier instance, two of them with the same timestamp
    and the last one older than both. *)
Definition stored_rows : list Msg :=
  [{| role := user; content := js "a"; ts := 5 |};
   {| role := assistant; content := js "b"; ts := 5 |};
   {| role := user; content := js "c"; ts := 3 |}].

Definition rehydrated : World := @onConnect std 1 (@new_world std stored_rows).

Definition two_chats : list Callback :=
  [Message (streaming hi_there) 1 chat_hello;
   Message (answering (js "Hi")) 1 chat_hello;
   Connect 2;
   Message failing 2 chat_hello].

(* ===================================================================== *)
(** * More about commands and rows *)
(* ===================================================================== *)

(** A text made of white space only. *)
Definition blank (s : jsstring) : bool := forallb is_js_space s.


Section MoreCommands.

Context `{Platform}.

(** A [model] command carrying the truthy value [m]. *)
Definition model_command (message : Inbound) (m : JSON) : Prop :=
  exists text data,
    message = Text text
    /\ JSON_parse text = Some data
    /\ prop (js "type") data = Some (JStr (js "model"))
    /\ prop (js "model") data = Some m
    /\ truthy (Some m) = true.

(** The callback is a reset command. *)
Definition is_reset (cb : Callback) : Prop :=
  match cb with
  | Message _ _ message => reset_command message
  | Connect _ => False
  end.

(** The callback is a model command. *)
Definition is_model_change (cb : Callback) : Prop :=
  match cb with
  | Message _ _ message => exists m, model_command message m
  | Connect _ => False
  end.

(** [expiresAt] is one day after the latest clock reading. *)
Definition expiry_fresh (w : World) : Prop :=
  0 < tick w
  /\ expiresAt (state w) = (Date_now (pred (tick w)) + DAY)%Z.

End MoreCommands.

(** A stream framed with CRLF line ends only, and the command objects of
    the edge cases. *)
Definition crlf_stream : ByteStream :=
  {| chunks := [ascii_bytes (jsq "data: {'response':'Hi'}" ++ [CR; LF; CR; LF])];
     ending := Closed |}.

Definition model_message : Inbound := Text (jsq "{'type':'model','model':'@cf/x'}").
Definition model_without_value : jsstring := jsq "{'type':'model','model':''}".
Definition blank_chat : jsstring := jsq "{'type':'chat','text':'  \t '}".
Definition numeric_chat : jsstring := jsq "{'type':'chat','text':5}".

(* ===================================================================== *)
(** * The browser side: [src/agent/wsClient.ts] and [src/App.tsx] *)
(* ===================================================================== *)

(** What the page calls in the browser: [JSON.stringify] on an object
    literal whose values are strings (the only use the client makes of it),
    and [crypto.randomUUID()], whose [n]-th call returns
    [crypto_randomUUID n]. *)
Class Browser : Type := {
  JSON_stringify : list (jsstring * jsstring) -> jsstring;
  crypto_randomUUID : nat -> jsstring
}.

(** The value [JSON.parse] gives back for such an object. *)
Definition object_of (fields : list (jsstring * jsstring)) : JSON :=
  JObj (map (fun kv => (fst kv, JStr (snd kv))) fields).

(** One bubble of the page. *)
Record ChatMessage : Type := {
  bubble_id : jsstring;
  bubble_role : Role;
  bubble_content : jsstring
}.

(** [localStorage]: [getItem] gives [None] for null. *)
Definition Storage : Type := jsstring -> option jsstring.

Definition getItem (k : jsstring) (st : Storage) : option jsstring := st k.

Definition setItem (k v : jsstring) (st : Storage) : Storage :=
  fun k' => if jseqb k' k then Some v else st k'.

(** The page: the React state of [App] ([messages], [pending]), its
    [hydratedRef], the socket of its [AgentClient] (absent before
    [connect], then the texts sent through it, in order), [localStorage],
    and the number of UUIDs drawn so far. *)
Record Page : Type := {
  bubbles : list ChatMessage;
  pending : bool;
  hydrated : bool;
  ws : option (list jsstring);
  localStorage : Storage;
  uuids : nat
}.

(** What the page shows: the bubbles without their keys. *)
Definition transcript (p : Page) : list (Role * jsstring) :=
  map (fun b => (bubble_role b, bubble_content b)) (bubbles p).

(** The same view of stored rows. *)
Definition shown (rows : list Msg) : list (Role * jsstring) :=
  map (fun m => (role m, content m)) (filter isUserOrAssistant rows).

(** [s.replace(/c/g, by)] for a one-character pattern and a replacement
    without dollar signs. *)
Definition replace_char (c : codeunit) (by_ : jsstring) (s : jsstring) : jsstring :=
  flat_map (fun x => if N.eqb x c then by_ else [x]) s.

(** [escapeHtml] of [App.tsx]. *)
Definition escapeHtml (s : jsstring) : jsstring :=
  replace_char 62%N (js "&gt;")
    (replace_char 60%N (js "&lt;")
       (replace_char 38%N (js "&amp;") s)).

(** The entity of one character. *)
Definition entity (c : codeunit) : jsstring :=
  (if c =? 38 then js "&amp;"
   else if c =? 60 then js "&lt;"
   else if c =? 62 then js "&gt;"
   else [c])%N.

Section Client.

Context `{Browser}.

Definition set_bubbles (l : list ChatMessage) (p : Page) : Page :=
  {| bubbles := l; pending := pending p; hydrated := hydrated p; ws := ws p;
     localStorage := localStorage p; uuids := uuids p |}.

Definition set_pending (b : bool) (p : Page) : Page :=
  {| bubbles := bubbles p; pending := b; hydrated := hydrated p; ws := ws p;
     localStorage := localStorage p; uuids := uuids p |}.

Definition set_hydrated (b : bool) (p : Page) : Page :=
  {| bubbles := bubbles p; pending := pending p; hydrated := b; ws := ws p;
     localStorage := localStorage p; uuids := uuids p |}.

(** [crypto.randomUUID()] *)
Definition randomUUID (p : Page) : jsstring * Page :=
  (crypto_randomUUID (uuids p),
   {| bubbles := bubbles p; pending := pending p; hydrated := hydrated p;
      ws := ws p; localStorage := localStorage p; uuids := S (uuids p) |}).

(** [this.ws?.send(text)] *)
Definition ws_send (text : jsstring) (p : Page) : Page :=
  match ws p with
  | None => p
  | Some sent =>
      {| bubbles := bubbles p; pending := pending p; hydrated := hydrated p;
         ws := Some (sent ++ [text]); localStorage := localStorage p;
         uuids := uuids p |}
  end.

(** ** [AgentClient] *)

Definition getOrCreateSid (p : Page) : jsstring * Page :=
  let k := js "sessionId" in
  match getItem k (localStorage p) with
  | Some (c :: sid) => (c :: sid, p)
  | _ =>
      let (sid, p) := randomUUID p in
      (sid,
       {| bubbles := bubbles p; pending := pending p; hydrated := hydrated p;
          ws := ws p; localStorage := setItem k sid (localStorage p);
          uuids := uuids p |})
  end.

(** [connect()]: the URL it opens, and the page with its new socket. *)
Definition connect (https : bool) (host : jsstring) (p : Page)
  : jsstring * Page :=
  let (sid, p) := getOrCreateSid p in
  let proto := if https then js "wss" else js "ws" in
  let url := proto ++ js "://" ++ host ++ js "/agents/ai-agent/" ++ sid in
  (url,
   {| bubbles := bubbles p; pending := pending p; hydrated := hydrated p;
      ws := Some []; localStorage := localStorage p; uuids := uuids p |}).

Definition chat (text : jsstring) (p : Page) : Page :=
  ws_send (JSON_stringify [(js "type", js "chat"); (js "text", text)]) p.

Definition reset (p : Page) : Page :=
  ws_send (JSON_stringify [(js "type", js "reset")]) p.

Definition setModel (m : jsstring) (p : Page) : Page :=
  ws_send (JSON_stringify [(js "type", js "model"); (js "model", m)]) p.

(** ** The handlers [App] installs *)

(** The [.map(...)] of [onReady]: one bubble and one UUID per row. *)
Fixpoint restore (rows : list Msg) (p : Page) : list ChatMessage * Page :=
  match rows with
  | [] => ([], p)
  | m :: rest =>
      let (u, p) := randomUUID p in
      let (l, p) := restore rest p in
      ({| bubble_id := u; bubble_role := role m; bubble_content := content m |} :: l, p)
  end.

Definition onReady (s : State) (p : Page) : Page :=
  if hydrated p then p
  else
    let (restored, p) := restore (filter isUserOrAssistant (messages s)) p in
    let p := match restored with
             | [] => p
             | _ :: _ => set_bubbles restored p
             end in
    set_hydrated true p.

Definition onDelta (t : jsstring) (p : Page) : Page :=
  let p := set_pending true p in
  match rev (bubbles p) with
  | last :: before =>
      match bubble_role last with
      | assistant =>
          set_bubbles
            (rev before
               ++ [{| bubble_id := bubble_id last; bubble_role := bubble_role last;
                      bubble_content := bubble_content last ++ t |}]) p
      | _ =>
          let (u, p) := randomUUID p in
          set_bubbles
            (bubbles p
               ++ [{| bubble_id := u; bubble_role := assistant; bubble_content := t |}]) p
      end
  | [] =>
      let (u, p) := randomUUID p in
      set_bubbles
        (bubbles p
           ++ [{| bubble_id := u; bubble_role := assistant; bubble_content := t |}]) p
  end.

Definition onDone (p : Page) : Page := set_pending false p.

Definition onCleared (p : Page) : Page :=
  set_bubbles [] (set_hydrated false p).

(** [ws.onmessage] on an event of the agent: the dispatch on its [type];
    [String(msg.text ?? "")] is the text of a [delta] itself. *)
Definition ws_onmessage (ev : Event) (p : Page) : Page :=
  match ev with
  | Ready s => onReady s p
  | Delta t => onDelta t p
  | Done => onDone p
  | Cleared => onCleared p
  end.

(** The events a connection delivers, handled in order. *)
Definition deliver (evs : list Event) (p : Page) : Page :=
  fold_left (fun p ev => ws_onmessage ev p) evs p.

(** [send] of [App]. *)
Definition App_send (text : jsstring) (p : Page) : Page :=
  let (u, p) := randomUUID p in
  let p := set_bubbles
             (bubbles p
                ++ [{| bubble_id := u; bubble_role := user; bubble_content := text |}]) p in
  let p := set_pending true p in
  chat text p.

(** [resetChat] of [App]. *)
Definition resetChat (p : Page) : Page :=
  set_bubbles [] (reset p).

(** [onSubmit] of [ChatInput] with the input value [v]. *)
Definition onSubmit (v : jsstring) (p : Page) : Page :=
  let t := trim v in
  if isEmpty t then p else App_send t p.

(** The last text the page sent through its socket. *)
Definition last_sent (p : Page) : option jsstring :=
  match ws p with
  | Some sent => match rev sent with t :: _ => Some t | [] => None end
  | None => None
  end.

End Client.

(** [QuoteJSONString] and the serialisation of an object of strings, for
    the scenarios. *)
Module JsonText.

Definition hex_char (n : N) : codeunit :=
  (if n <? 10 then 48 + n else 87 + n)%N.

Definition unicode_escape (c : codeunit) : jsstring :=
  [92; 117; hex_char (c / 4096); hex_char ((c / 256) mod 16);
   hex_char ((c / 16) mod 16); hex_char (c mod 16)]%N.

Definition is_high (c : codeunit) : bool := ((55296 <=? c) && (c <=? 56319))%N.
Definition is_low (c : codeunit) : bool := ((56320 <=? c) && (c <=? 57343))%N.

Definition escape_one (c : codeunit) : jsstring :=
  (if c =? 8 then [92; 98]
   else if c =? 9 then [92; 116]
   else if c =? 10 then [92; 110]
   else if c =? 12 then [92; 102]
   else if c =? 13 then [92; 114]
   else if c =? 34 then [92; 34]
   else if c =? 92 then [92; 92]
   else if c <? 32 then unicode_escape c
   else [c])%N.

Fixpoint quote_body (s : jsstring) : jsstring :=
  match s with
  | [] => []
  | c :: t =>
      if is_high c then
        match t with
        | d :: t' =>
            if is_low d then c :: d :: quote_body t'
            else unicode_escape c ++ quote_body t
        | [] => unicode_escape c
        end
      else if is_low c then unicode_escape c ++ quote_body t
      else escape_one c ++ quote_body t
  end.

Definition quote (s : jsstring) : jsstring := [34%N] ++ quote_body s ++ [34%N].

Fixpoint members (fields : list (jsstring * jsstring)) : jsstring :=
  match fields with
  | [] => []
  | [(k, v)] => quote k ++ [58%N] ++ quote v
  | (k, v) :: rest => quote k ++ [58%N] ++ quote v ++ [44%N] ++ members rest
  end.

Definition stringify (fields : list (jsstring * jsstring)) : jsstring :=
  [123%N] ++ members fields ++ [125%N].

End JsonText.

(** The standard browser, drawing the UUIDs of a fixed list. *)
Definition std_browser : Browser :=
  {| JSON_stringify := JsonText.stringify;
     crypto_randomUUID :=
       fun n => js "00000000-0000-4000-8000-0000000000"
                   ++ [JsonText.hex_char ((N.of_nat n / 16) mod 16);
                       JsonText.hex_char (N.of_nat n mod 16)] |}.

(** A page just loaded and connected. *)
Definition fresh_page : Page :=
  snd (@connect std_browser true (js "chat.example")
         {| bubbles := []; pending := false; hydrated := false; ws := None;
            localStorage := fun _ => None; uuids := 0 |}).

(* ===================================================================== *)
(** * Lemmas on strings and frames *)
(* ===================================================================== *)

Lemma startsWith_app (p s t : jsstring) :
  startsWith p s = true -> startsWith p (s ++ t) = true.
Proof.
  revert s; induction p as [|x p IH]; intros [|c s]; simpl; try easy.
  intros Hx; apply andb_true_iff in Hx as [-> Hp]; simpl; auto.
Qed.

Lemma startsWith_length (p s : jsstring) :
  startsWith p s = true -> length p <= length s.
Proof.
  revert s; induction p as [|x p IH]; intros [|c s]; simpl; try easy; try lia.
  intros Hx; apply andb_true_iff in Hx as [_ Hp]; apply IH in Hp; lia.
Qed.

Lemma startsWith_app_false (p s t : jsstring) :
  startsWith p s = false -> length p <= length s ->
  startsWith p (s ++ t) = false.
Proof.
  revert s; induction p as [|x p IH]; intros [|c s]; simpl; try easy; try lia.
  intros Hx Hl; apply andb_false_iff in Hx as [-> | Hp]; [easy|].
  rewrite IH by (auto; lia); apply andb_false_r.
Qed.

Lemma indexOf_bound (p s : jsstring) (i : nat) :
  indexOf p s = Some i -> i + length p <= length s.
Proof.
  revert i; induction s as [|c s IH]; intros i; simpl.
  - destruct (startsWith p []) eqn:E; [|easy].
    intros [= <-]; apply startsWith_length in E; simpl in *; lia.
  - destruct (startsWith p (c :: s)) eqn:E.
    + intros [= <-]; apply startsWith_length in E; simpl in *; lia.
    + destruct (indexOf p s) as [j|]; [|easy].
      intros [= <-]; specialize (IH j eq_refl); lia.
Qed.

(** The first occurrence in a text is also the first one in any extension
    of it. *)
Lemma indexOf_app (p s t : jsstring) (i : nat) :
  indexOf p s = Some i -> indexOf p (s ++ t) = Some i.
Proof.
  revert i; induction s as [|c s IH]; intros i; simpl.
  - destruct (startsWith p []) eqn:E; [|easy].
    intros [= <-]; destruct p; [|easy]; now destruct t.
  - destruct (startsWith p (c :: s)) eqn:E.
    + intros [= <-]; change (c :: s ++ t) with ((c :: s) ++ t).
      now rewrite (startsWith_app _ _ _ E).
    + destruct (indexOf p s) as [j|] eqn:Ej; [|easy].
      intros [= <-].
      change (c :: s ++ t) with ((c :: s) ++ t).
      rewrite startsWith_app_false; auto.
      * now rewrite (IH j eq_refl).
      * apply indexOf_bound in Ej; simpl; lia.
Qed.

Lemma indexOf_cons (p : jsstring) (c : codeunit) (s : jsstring) :
  indexOf p (c :: s)
  = if startsWith p (c :: s) then Some 0 else option_map S (indexOf p s).
Proof. reflexivity. Qed.

Lemma startsWith_LFLF (c d : codeunit) (t : jsstring) :
  startsWith LFLF (c :: d :: t) = N.eqb c LF && N.eqb d LF.
Proof.
  unfold LFLF; cbn [startsWith].
  rewrite andb_true_r, (N.eqb_sym LF c), (N.eqb_sym LF d); easy.
Qed.

Lemma complete_frames_cons (c d : codeunit) (t : jsstring) :
  complete_frames (c :: d :: t)
  = if N.eqb c LF && N.eqb d LF then [] :: complete_frames t
    else match complete_frames (d :: t) with
         | f :: fs => (c :: f) :: fs
         | [] => []
         end.
Proof. reflexivity. Qed.

Lemma trailing_cons (c d : codeunit) (t : jsstring) :
  trailing (c :: d :: t)
  = if N.eqb c LF && N.eqb d LF then trailing t
    else match complete_frames (d :: t) with
         | _ :: _ => trailing (d :: t)
         | [] => c :: d :: t
         end.
Proof. reflexivity. Qed.

(** Unfolding [complete_frames] and [trailing] along [indexOf]. *)
Lemma frames_none (s : jsstring) :
  indexOf LFLF s = None -> complete_frames s = [] /\ trailing s = s.
Proof.
  induction s as [|c s IH]; [easy|].
  destruct s as [|d s']; [easy|].
  rewrite indexOf_cons, startsWith_LFLF, complete_frames_cons, trailing_cons.
  destruct (N.eqb c LF && N.eqb d LF); [easy|].
  destruct (indexOf LFLF (d :: s')) as [j|] eqn:Ej; [easy|].
  intros _; destruct (IH eq_refl) as [-> _]; easy.
Qed.

Lemma frames_some (s : jsstring) (i : nat) :
  indexOf LFLF s = Some i ->
  complete_frames s = slice_to i s :: complete_frames (slice_from (i + 2) s)
  /\ trailing s = trailing (slice_from (i + 2) s).
Proof.
  unfold slice_to, slice_from.
  revert i; induction s as [|c s IH]; [easy|].
  destruct s as [|d s'].
  { intros i Hi; apply indexOf_bound in Hi; simpl in Hi; lia. }
  intros i.
  rewrite indexOf_cons, startsWith_LFLF, complete_frames_cons, trailing_cons.
  destruct (N.eqb c LF && N.eqb d LF).
  - intros [= <-]; easy.
  - destruct (indexOf LFLF (d :: s')) as [j|] eqn:Ej; [|easy].
    intros [= <-].
    destruct (IH j eq_refl) as [-> ->]; easy.
Qed.

Lemma trailing_no_frame (s : jsstring) : indexOf LFLF (trailing s) = None.
Proof.
  remember (length s) as n eqn:Hn.
  revert s Hn; induction n as [n IH] using lt_wf_ind; intros s ->.
  destruct (indexOf LFLF s) as [i|] eqn:Ei.
  - destruct (frames_some _ Ei) as [_ ->].
    apply (IH (length (slice_from (i + 2) s))); [|easy].
    apply indexOf_bound in Ei; unfold slice_from; rewrite length_skipn.
    simpl in Ei; lia.
  - destruct (frames_none _ Ei) as [_ ->]; easy.
Qed.

Lemma startsWith_split (p s : jsstring) :
  startsWith p s = true -> s = p ++ skipn (length p) s.
Proof.
  revert s; induction p as [|x p IH]; intros [|c s]; simpl; try easy.
  intros E; apply andb_true_iff in E as [Ex Ep].
  apply N.eqb_eq in Ex; subst; f_equal; auto.
Qed.

Lemma indexOf_split (p s : jsstring) (i : nat) :
  indexOf p s = Some i -> s = firstn i s ++ p ++ skipn (i + length p) s.
Proof.
  revert i; induction s as [|c s IH]; intros i.
  - cbn [indexOf]; destruct (startsWith p []) eqn:E; [|easy].
    intros [= <-]; now apply startsWith_split.
  - rewrite indexOf_cons; destruct (startsWith p (c :: s)) eqn:E.
    + intros [= <-]; now apply startsWith_split.
    + destruct (indexOf p s) as [j|] eqn:Ej; [|easy].
      intros [= <-]; cbn [firstn skipn Nat.add app].
      f_equal; now apply IH.
Qed.

(** The complete frames, each followed by its blank line, and then the
    trailing part, make up the text again. *)
Lemma frames_partition (s : jsstring) :
  s = concat (map (fun f => f ++ LFLF) (complete_frames s)) ++ trailing s.
Proof.
  remember (length s) as n eqn:Hn.
  revert s Hn; induction n as [n IH] using lt_wf_ind; intros s ->.
  destruct (indexOf LFLF s) as [i|] eqn:Ei.
  - pose proof (indexOf_bound _ _ Ei) as Hb; simpl in Hb.
    destruct (frames_some _ Ei) as [-> ->].
    cbn [map concat]; unfold slice_to, slice_from.
    rewrite <- !app_assoc.
    rewrite <- (IH (length (skipn (i + 2) s)));
      [now apply indexOf_split | rewrite length_skipn; lia | reflexivity].
  - destruct (frames_none _ Ei) as [-> ->]; reflexivity.
Qed.

(** Buffering is transparent: the frames of a text are those of a prefix,
    then those of what the prefix left buffered followed by the rest. *)
Lemma frames_app (a b : jsstring) :
  complete_frames (a ++ b)
  = complete_frames a ++ complete_frames (trailing a ++ b)
  /\ trailing (a ++ b) = trailing (trailing a ++ b).
Proof.
  remember (length a) as n eqn:Hn.
  revert a Hn; induction n as [n IH] using lt_wf_ind; intros a ->.
  destruct (indexOf LFLF a) as [i|] eqn:Ei.
  - pose proof (indexOf_bound _ _ Ei) as Hb; simpl in Hb.
    destruct (frames_some _ Ei) as [-> ->].
    destruct (frames_some _ (indexOf_app _ _ b Ei)) as [-> ->].
    unfold slice_to, slice_from.
    rewrite firstn_app, skipn_app.
    replace (i - length a) with 0 by lia.
    replace (i + 2 - length a) with 0 by lia.
    rewrite firstn_O, app_nil_r, skipn_O.
    destruct (IH (length (skipn (i + 2) a))) with (a := skipn (i + 2) a)
      as [-> ->]; [rewrite length_skipn; lia | easy | easy].
  - destruct (frames_none _ Ei) as [-> ->]; easy.
Qed.

(* ===================================================================== *)
(** * Lemmas on the world and the trace *)
(* ===================================================================== *)

Lemma emit_all_nil (w : World) : emit_all [] w = w.
Proof. destruct w; unfold emit_all; simpl; now rewrite app_nil_r. Qed.

Lemma emit_all_app (a b : list Effect) (w : World) :
  emit_all b (emit_all a w) = emit_all (a ++ b) w.
Proof. unfold emit_all; simpl; now rewrite app_assoc. Qed.

Lemma effects_of_app (w w' : World) (es : list Effect) :
  log w' = log w ++ es -> effects_of w w' = es.
Proof.
  unfold effects_of; intros ->.
  rewrite skipn_app, skipn_all, Nat.sub_diag; reflexivity.
Qed.

Lemma concat_filter_nonempty (l : list jsstring) :
  concat (filter nonempty l) = concat l.
Proof.
  induction l as [|x l IH]; [easy|].
  simpl; destruct x; simpl; now rewrite IH.
Qed.

Lemma filter_flat_map {A B : Type} (p : B -> bool) (f : A -> list B) (l : list A) :
  filter p (flat_map f l) = flat_map (fun x => filter p (f x)) l.
Proof.
  induction l as [|x l IH]; [easy|].
  simpl; now rewrite filter_app, IH.
Qed.

Lemma map_flat_map {A B C : Type} (g : B -> C) (f : A -> list B) (l : list A) :
  map g (flat_map f l) = flat_map (fun x => map g (f x)) l.
Proof.
  induction l as [|x l IH]; [easy|].
  simpl; now rewrite map_app, IH.
Qed.

Section Pipeline.

Context `{Platform}.

Lemma decode_app (d : TextDecoder) (a b : list byte) :
  decode d (a ++ b)
  = let (d1, o1) := decode d a in
    let (d2, o2) := decode d1 b in (d2, o1 ++ o2).
Proof.
  revert d; induction a as [|x a IH]; intros d; simpl.
  - now destruct (decode d b).
  - destruct (TextDecoder_byte d x) as [d1 o1].
    rewrite IH.
    destruct (decode d1 a) as [d2 o2], (decode d2 b) as [d3 o3].
    now rewrite app_assoc.
Qed.

(** Chunk boundaries do not matter: the frames met chunk by chunk are the
    complete frames of the whole decoded text. *)
Lemma read_frames_whole (pending : list (list byte)) (buffer : jsstring)
      (d : TextDecoder) :
  indexOf LFLF buffer = None ->
  read_frames pending buffer d
  = complete_frames (buffer ++ snd (decode d (concat pending))).
Proof.
  revert buffer d; induction pending as [|v rest IH]; intros buffer d Hb.
  - simpl; rewrite app_nil_r; symmetry; now apply frames_none.
  - simpl; rewrite decode_app.
    destruct (decode d v) as [d1 o1] eqn:E1.
    rewrite (IH _ d1 (trailing_no_frame _)).
    destruct (decode d1 (concat rest)) as [d2 o2]; simpl.
    rewrite app_assoc.
    now destruct (frames_app (buffer ++ o1) o2) as [-> _].
Qed.

Lemma on_line_pieces (conn : Connection) (full : jsstring) (w : World)
      (line : jsstring) :
  on_line conn (full, w) line
  = let ps := filter nonempty (map fragment_text (line_payload line)) in
    (full ++ concat ps, emit_all (delta_sends conn ps) w).
Proof.
  unfold on_line, line_payload.
  set (payload := trimStart (slice_from 5 line)).
  destruct (startsWith (js "data:") line); cbn [negb];
    [|cbn; now rewrite app_nil_r, emit_all_nil].
  destruct (isEmpty payload || jseqb payload (js "[DONE]")) eqn:E;
    [cbn; now rewrite app_nil_r, emit_all_nil|].
  apply orb_false_iff in E as [E _].
  unfold fragment_text; cbv zeta; cbn [map].
  destruct (JSON_parse payload) as [json|].
  - generalize (response_text json); intros piece.
    cbn [filter]; unfold nonempty; destruct (isEmpty piece); cbn.
    + now rewrite app_nil_r, emit_all_nil.
    + now rewrite app_nil_r.
  - cbn [filter]; unfold nonempty; rewrite E; cbn; now rewrite app_nil_r.
Qed.

Lemma fold_on_line (conn : Connection) (lines : list jsstring)
      (full : jsstring) (w : World) :
  fold_left (on_line conn) lines (full, w)
  = let ps := filter nonempty (map fragment_text (flat_map line_payload lines)) in
    (full ++ concat ps, emit_all (delta_sends conn ps) w).
Proof.
  revert full w; induction lines as [|l lines IH]; intros full w.
  - cbn; now rewrite app_nil_r, emit_all_nil.
  - cbn [fold_left flat_map].
    rewrite on_line_pieces; cbv zeta; rewrite IH; cbv zeta.
    rewrite map_app, filter_app, concat_app, emit_all_app.
    unfold delta_sends; now rewrite map_app, app_assoc.
Qed.

(** With fuel above the length of the buffer, [drain] handles every
    complete frame and leaves what follows the last one. *)
Lemma drain_frames (fuel : nat) (conn : Connection) (full buffer : jsstring)
      (w : World) :
  length buffer < fuel ->
  drain fuel conn full buffer w
  = let ps := flat_map frame_pieces (complete_frames buffer) in
    (full ++ concat ps, trailing buffer, emit_all (delta_sends conn ps) w).
Proof.
  revert full buffer w; induction fuel as [|fuel IH]; intros full buffer w Hl;
    [lia|].
  cbn [drain].
  destruct (indexOf [LF; LF] buffer) as [idx|] eqn:Ei.
  - change [LF; LF] with LFLF in Ei.
    destruct (frames_some _ Ei) as [-> ->].
    pose proof (indexOf_bound _ _ Ei) as Hb; simpl in Hb.
    rewrite fold_on_line; cbv beta iota zeta.
    rewrite IH by (unfold slice_from; rewrite length_skipn; lia).
    cbv zeta; cbn [flat_map].
    rewrite concat_app, emit_all_app.
    unfold delta_sends at 3; rewrite map_app, app_assoc.
    reflexivity.
  - change [LF; LF] with LFLF in Ei.
    destruct (frames_none _ Ei) as [-> ->]; simpl.
    now rewrite app_nil_r, emit_all_nil.
Qed.

Lemma read_loop_frames (conn : Connection) (pending : list (list byte))
      (e : StreamEnd) (full buffer : jsstring) (d : TextDecoder) (w : World) :
  read_loop conn pending e full buffer d w
  = let ps := flat_map frame_pieces (read_frames pending buffer d) in
    (errored e, full ++ concat ps, emit_all (delta_sends conn ps) w).
Proof.
  revert full buffer d w; induction pending as [|v rest IH];
    intros full buffer d w; simpl.
  - rewrite app_nil_r, emit_all_nil; now destruct e.
  - destruct (decode d v) as [d1 o1].
    pose proof (@drain_frames (S (length (buffer ++ o1))) conn full
                              (buffer ++ o1) w (Nat.lt_succ_diag_r _)) as Hd.
    cbv zeta in Hd; cbn [drain] in Hd |- *; rewrite Hd.
    rewrite IH; cbv zeta.
    rewrite flat_map_app, concat_app, emit_all_app.
    unfold delta_sends; now rewrite map_app, app_assoc.
Qed.

Lemma stream_pieces_fragments (s : list (list byte)) :
  stream_pieces s = filter nonempty (stream_fragments s).
Proof.
  unfold stream_pieces, stream_fragments, decoded.
  rewrite read_frames_whole by reflexivity; simpl.
  unfold frame_pieces.
  now rewrite map_flat_map, filter_flat_map.
Qed.

(** Streams with the same bytes have the same fragments. *)
Lemma stream_fragments_rechunk (s1 s2 : list (list byte)) :
  concat s1 = concat s2 -> stream_fragments s1 = stream_fragments s2.
Proof. unfold stream_fragments; now intros ->. Qed.

End Pipeline.

(* ===================================================================== *)
(** * Lemmas on command dispatch *)
(* ===================================================================== *)

Section Commands.

Context `{Platform}.

Ltac world_eq :=
  unfold after_reset, after_model, appended, send, setState, sql_insert,
    sql_delete, emit, emit_all, now;
  cbn [state table tick conns log fst snd];
  rewrite <- ?app_assoc; reflexivity.

Lemma saveAssistant_appended (conn : Connection) (text : jsstring) (w : World) :
  saveAssistant conn text w = appended assistant text w.
Proof.
  unfold saveAssistant, appended, setState, sql_insert, emit, now; cbn.
  now rewrite <- app_assoc.
Qed.

Lemma streamAssistant_spec (ai : AiBinding) (conn : Connection)
      (turns : list AiChatMessage) (w : World) :
  streamAssistant ai conn turns w
  = let r := ai (model_arg w) turns in
    let w1 := emit (AiRun (model_arg w) turns) w in
    if plain r
    then send conn Done (appended assistant (reply_text r) w1)
    else appended assistant (reply_text r)
                  (send conn Done
                        (emit_all (delta_sends conn (reply_deltas r)) w1)).
Proof.
  unfold streamAssistant; fold (model_arg w); cbv zeta.
  destruct (ai (model_arg w) turns) as [[s | t |] |]; cbn [as_stream plain].
  - rewrite read_loop_frames; cbv beta iota zeta.
    rewrite saveAssistant_appended.
    cbn [reply_text reply_deltas app]; fold (stream_pieces (chunks s)).
    reflexivity.
  - now rewrite saveAssistant_appended.
  - now rewrite saveAssistant_appended.
  - rewrite saveAssistant_appended; cbn [reply_text reply_deltas delta_sends map].
    now rewrite emit_all_nil.
Qed.

Lemma jseqb_eq (a b : jsstring) : jseqb a b = true -> a = b.
Proof.
  revert b; induction a as [|x a IH]; intros [|y b]; simpl; try easy.
  intros E; apply andb_true_iff in E as [Ex Ea].
  apply N.eqb_eq in Ex; subst; f_equal; auto.
Qed.

Lemma is_string_eq (lit : jsstring) (v : option JSON) :
  is_string lit v = true -> v = Some (JStr lit).
Proof.
  destruct v as [[]|]; simpl; try easy.
  intros E; apply jseqb_eq in E; now subst.
Qed.

(** The chat branch past its guards. *)
Lemma chat_branch (ai : AiBinding) (conn : Connection)
      (userText : jsstring) (w : World) :
  (let (t, w) := now w in
   let userMsg := {| role := user; content := userText; ts := t |} in
   let w := sql_insert userMsg w in
   let (t', w) := now w in
   let w := setState {| model := model (state w);
                        messages := messages (state w) ++ [userMsg];
                        createdAt := createdAt (state w);
                        expiresAt := (t' + DAY)%Z |} w in
   let recentUA :=
     filter isUserOrAssistant (slice_last 40 (messages (state w))) in
   let history :=
     map (fun m => {| ai_role := role m; ai_content := content m |}) recentUA in
   let payload :=
     [{| ai_role := system; ai_content := SYSTEM_PROMPT |}]
       ++ history ++ [{| ai_role := user; ai_content := userText |}] in
   streamAssistant ai conn payload w)
  = after_chat conn userText (backend_reply ai userText w) w.
Proof.
  unfold now; cbv beta iota zeta.
  match goal with
  | |- streamAssistant _ _ _ ?w' = _ =>
      replace w' with (appended user userText w) by world_eq
  end.
  rewrite streamAssistant_spec.
  reflexivity.
Qed.

(** Every way [onMessage] can go. *)
Lemma onMessage_cases (ai : AiBinding) (conn : Connection)
      (message : Inbound) (w : World) :
  onMessage ai conn message w = w
  \/ (exists m, onMessage ai conn message w = after_model m w)
  \/ (reset_command message
      /\ onMessage ai conn message w = after_reset conn w)
  \/ (exists userText,
         chat_command message userText
         /\ onMessage ai conn message w
            = after_chat conn userText (backend_reply ai userText w) w)
  \/ onMessage ai conn message w = emit (Uncaught "TypeError") w.
Proof.
  destruct message as [text|]; [|now left].
  unfold onMessage.
  destruct (JSON_parse text) as [data|] eqn:Ep; [|now left].
  cbv zeta.
  destruct (truthy (prop (js "type") data)); cbn [negb]; [|now left].
  destruct (is_string (js "model") (prop (js "type") data)
            && truthy (prop (js "model") data)).
  { destruct (prop (js "model") data) as [m|]; [|now left].
    right; left; exists m; world_eq. }
  destruct (is_string (js "reset") (prop (js "type") data)) eqn:Er.
  { right; right; left; split; [|world_eq].
    exists text, data; auto using is_string_eq. }
  destruct (is_string (js "chat") (prop (js "type") data)) eqn:Ec; [|now left].
  apply is_string_eq in Ec.
  assert (Hgo : forall s,
             trim s <> [] -> prop (js "text") data = Some (JStr s) ->
             chat_command (Text text) (trim s)).
  { intros s Hs Ht; exists text, data, s; auto 10. }
  destruct (prop (js "text") data) as [v|] eqn:Et; cbn [truthy].
  - destruct v as [| b | m e | s | l | l]; cbn [truthy].
    + now left.
    + destruct b; [now right; right; right; right | now left].
    + destruct (num_is_zero m e); cbn [negb];
        [now left | now right; right; right; right].
    + destruct (isEmpty s) eqn:Es; cbn [negb].
      * now left.
      * destruct (isEmpty (trim s)) eqn:Et'; [now left|].
        right; right; right; left; exists (trim s); split.
        { apply Hgo; [|reflexivity].
          intros E; rewrite E in Et'; discriminate. }
        apply chat_branch.
    + now right; right; right; right.
    + now right; right; right; right.
  - now left.
Qed.

(** A chat command goes the chat way. *)
Lemma onMessage_chat (ai : AiBinding) (conn : Connection)
      (message : Inbound) (userText : jsstring) (w : World) :
  chat_command message userText ->
  onMessage ai conn message w
  = after_chat conn userText (backend_reply ai userText w) w.
Proof.
  intros (text & data & s & -> & Hp & Hty & Htx & Htr & Hne).
  unfold onMessage; rewrite Hp; cbv zeta; rewrite Hty, Htx.
  change (truthy (Some (JStr (js "chat")))) with true.
  change (is_string (js "model") (Some (JStr (js "chat")))) with false.
  change (is_string (js "reset") (Some (JStr (js "chat")))) with false.
  change (is_string (js "chat") (Some (JStr (js "chat")))) with true.
  cbn [negb andb truthy].
  assert (Es : isEmpty s = false).
  { destruct s; [|easy]. now subst userText. }
  rewrite Es; cbn [negb]; rewrite Htr.
  assert (Eu : isEmpty userText = false) by (now destruct userText).
  rewrite Eu; apply chat_branch.
Qed.

(** A reset command goes the reset way. *)
Lemma onMessage_reset (ai : AiBinding) (conn : Connection)
      (message : Inbound) (w : World) :
  reset_command message ->
  onMessage ai conn message w = after_reset conn w.
Proof.
  intros (text & data & -> & Hp & Hty).
  unfold onMessage; rewrite Hp; cbv zeta; rewrite Hty.
  change (truthy (Some (JStr (js "reset")))) with true.
  change (is_string (js "model") (Some (JStr (js "reset")))) with false.
  change (is_string (js "reset") (Some (JStr (js "reset")))) with true.
  cbn [negb andb]; world_eq.
Qed.

End Commands.

(* ===================================================================== *)
(** * Lemmas on traces *)
(* ===================================================================== *)

Lemma position_app (p : Effect -> bool) (l1 l2 : list Effect) :
  forallb (fun e => negb (p e)) l1 = true ->
  position p (l1 ++ l2) = option_map (Nat.add (length l1)) (position p l2).
Proof.
  induction l1 as [|e l1 IH]; simpl.
  - intros _; now destruct (position p l2).
  - intros E; apply andb_true_iff in E as [Ee El].
    apply negb_true_iff in Ee; rewrite Ee, (IH El).
    now destruct (position p l2).
Qed.

Lemma no_done_in_deltas (conn : Connection) (ps : list jsstring) :
  forallb (fun e => negb (done_sent e)) (delta_sends conn ps) = true.
Proof. induction ps; simpl; auto. Qed.

Lemma no_write_in_deltas (conn : Connection) (ps : list jsstring) :
  forallb (fun e => negb (assistant_written e)) (delta_sends conn ps) = true.
Proof. induction ps; simpl; auto. Qed.

Lemma events_app (a b : list Effect) : events (a ++ b) = events a ++ events b.
Proof. unfold events; apply flat_map_app. Qed.

Lemma events_to_app (c : Connection) (a b : list Effect) :
  events_to c (a ++ b) = events_to c a ++ events_to c b.
Proof. unfold events_to; apply flat_map_app. Qed.

Lemma events_deltas (conn : Connection) (ps : list jsstring) :
  events (delta_sends conn ps) = map Delta ps.
Proof. induction ps; simpl; congruence. Qed.

Lemma events_to_deltas (conn : Connection) (ps : list jsstring) :
  events_to conn (delta_sends conn ps) = map Delta ps.
Proof.
  induction ps as [|p ps IH]; simpl; [easy|].
  now rewrite Nat.eqb_refl, IH.
Qed.

Lemma delta_texts_app (a b : list Event) :
  delta_texts (a ++ b) = delta_texts a ++ delta_texts b.
Proof. unfold delta_texts; apply flat_map_app. Qed.

Lemma delta_texts_deltas (ps : list jsstring) : delta_texts (map Delta ps) = ps.
Proof. induction ps; simpl; congruence. Qed.

Lemma filter_done_deltas (ps : list jsstring) :
  filter is_done (map Delta ps) = [].
Proof. induction ps; simpl; auto. Qed.

Lemma events_to_addressed (conn c : Connection) (es : list Effect) :
  Forall (addressed_to conn) es ->
  events_to conn es = events es /\ (c <> conn -> events_to c es = []).
Proof.
  induction 1 as [|e es He _ [IH1 IH2]]; [easy|].
  destruct e; simpl in *; auto.
  subst; rewrite Nat.eqb_refl; simpl; split; [congruence|].
  intros Hc; apply Nat.eqb_neq in Hc as Hc'.
  rewrite Nat.eqb_sym, Hc'; auto.
Qed.

Lemma addressed_deltas (conn : Connection) (ps : list jsstring) :
  Forall (addressed_to conn) (delta_sends conn ps).
Proof. induction ps; simpl; constructor; simpl; auto. Qed.

Section Traces.

Context `{Platform}.

Lemma after_chat_log (conn : Connection) (userText : jsstring)
      (r : AiResult) (w : World) :
  log (after_chat conn userText r w) = log w ++ chat_effects conn userText r w.
Proof.
  unfold after_chat, chat_effects; cbv zeta.
  destruct (plain r); cbn; rewrite <- ?app_assoc; cbn; reflexivity.
Qed.

Lemma after_chat_table (conn : Connection) (userText : jsstring)
      (r : AiResult) (w : World) :
  table (after_chat conn userText r w)
  = table w ++ [new_row user userText w; assistant_row r w].
Proof.
  unfold after_chat; cbv zeta.
  destruct (plain r); cbn; rewrite <- ?app_assoc; reflexivity.
Qed.

Lemma after_chat_messages (conn : Connection) (userText : jsstring)
      (r : AiResult) (w : World) :
  messages (state (after_chat conn userText r w))
  = messages (state w) ++ [new_row user userText w; assistant_row r w].
Proof.
  unfold after_chat; cbv zeta.
  destruct (plain r); cbn; rewrite <- ?app_assoc; reflexivity.
Qed.

Lemma chat_effects_of (ai : AiBinding) (conn : Connection)
      (message : Inbound) (userText : jsstring) (w : World) :
  chat_command message userText ->
  effects_of w (onMessage ai conn message w)
  = chat_effects conn userText (backend_reply ai userText w) w.
Proof.
  intros Hc; apply effects_of_app.
  rewrite (onMessage_chat ai conn w Hc); apply after_chat_log.
Qed.

(** Every event a handler sends goes to the connection it was called for. *)
Lemma onMessage_addressed (ai : AiBinding) (conn : Connection)
      (message : Inbound) (w : World) :
  exists es, log (onMessage ai conn message w) = log w ++ es
             /\ Forall (addressed_to conn) es.
Proof.
  destruct (onMessage_cases ai conn message w)
    as [E | [(m & E) | [(_ & E) | [(u & _ & E) | E]]]]; rewrite E.
  - exists []; now rewrite app_nil_r.
  - eexists; split; [reflexivity|]; repeat constructor.
  - eexists; split; [reflexivity|]; repeat constructor.
  - exists (chat_effects conn u (backend_reply ai u w) w).
    split; [apply after_chat_log|].
    unfold chat_effects; cbv zeta.
    apply Forall_app; split; [repeat constructor|].
    destruct (plain _); [repeat constructor|].
    apply Forall_app; split; [apply addressed_deltas | repeat constructor].
  - eexists; split; [reflexivity|]; repeat constructor.
Qed.

End Traces.

(* ===================================================================== *)
(** * Lemmas on the Store and its mirror *)
(* ===================================================================== *)

Lemma insert_by_ts_last (m : Msg) (l : list Msg) :
  Forall (fun x => (ts x <= ts m)%Z) l -> insert_by_ts m l = l ++ [m].
Proof.
  induction 1 as [|x l Hx _ IH]; simpl; [easy|].
  apply Z.leb_le in Hx; now rewrite Hx, IH.
Qed.

Lemma insert_by_ts_Forall (P : Msg -> Prop) (m : Msg) (l : list Msg) :
  P m -> Forall P l -> Forall P (insert_by_ts m l).
Proof.
  intros Hm; induction 1 as [|x l Hx Hl IH]; simpl; [auto|].
  destruct (ts x <=? ts m)%Z; auto.
Qed.

Lemma fold_insert_Forall (P : Msg -> Prop) (rows acc : list Msg) :
  Forall P rows -> Forall P acc ->
  Forall P (fold_left (fun a m => insert_by_ts m a) rows acc).
Proof.
  intros Hr; revert acc; induction Hr as [|x l Hx _ IH]; simpl; [auto|].
  intros acc Ha; apply IH; now apply insert_by_ts_Forall.
Qed.

Lemma select_ordered_Forall (P : Msg -> Prop) (rows : list Msg) :
  Forall P rows -> Forall P (select_ordered rows).
Proof. intros Hr; apply fold_insert_Forall; auto. Qed.

(** A row not older than any stored one is selected last. *)
Lemma select_ordered_snoc (rows : list Msg) (m : Msg) :
  Forall (fun x => (ts x <= ts m)%Z) rows ->
  select_ordered (rows ++ [m]) = select_ordered rows ++ [m].
Proof.
  intros Hr; unfold select_ordered; rewrite fold_left_app; simpl.
  now apply insert_by_ts_last, select_ordered_Forall.
Qed.

Section Mirror.

Context `{Platform}.

Hypothesis Hclock : clock_monotone.

Lemma rows_in_past_later (rows : list Msg) (i j : nat) :
  i <= j ->
  Forall (fun m => (ts m <= Date_now i)%Z) rows ->
  Forall (fun m => (ts m <= Date_now j)%Z) rows.
Proof.
  intros Hij; apply Forall_impl; intros m Hm.
  specialize (Hclock Hij); lia.
Qed.

Lemma consistent_emit_all (es : list Effect) (w : World) :
  consistent w -> consistent (emit_all es w).
Proof. easy. Qed.

Lemma consistent_appended (r : Role) (text : jsstring) (w : World) :
  consistent w -> consistent (appended r text w).
Proof.
  intros [Hm Hp]; split.
  - unfold mirrored, appended, state_with in *;
      cbn [state table messages new_row].
    rewrite select_ordered_snoc, Hm; auto.
  - unfold rows_in_past, appended in *; cbn [table tick].
    apply Forall_app; split.
    + apply rows_in_past_later with (i := tick w); auto.
    + repeat constructor; cbn; apply Hclock; auto.
Qed.

Lemma consistent_after_chat (conn : Connection) (userText : jsstring)
      (r : AiResult) (w : World) :
  consistent w -> consistent (after_chat conn userText r w).
Proof.
  intros Hw; unfold after_chat; cbv zeta.
  pose proof (consistent_appended user userText Hw) as H1.
  destruct (plain r).
  - apply (consistent_emit_all [_]), consistent_appended.
    now apply (consistent_emit_all [_]).
  - apply consistent_appended.
    apply (consistent_emit_all [_]), consistent_emit_all.
    now apply (consistent_emit_all [_]).
Qed.

Lemma consistent_onMessage (ai : AiBinding) (conn : Connection)
      (message : Inbound) (w : World) :
  consistent w -> consistent (onMessage ai conn message w).
Proof.
  intros Hw.
  destruct (onMessage_cases ai conn message w)
    as [E | [(m & E) | [(_ & E) | [(u & _ & E) | E]]]]; rewrite E; auto.
  - destruct Hw as [Hm Hp]; split; [exact Hm|].
    unfold rows_in_past in *; cbn.
    apply rows_in_past_later with (i := tick w); auto.
  - split; [reflexivity | constructor].
  - now apply consistent_after_chat.
Qed.

Lemma consistent_onConnect (conn : Connection) (w : World) :
  consistent w -> consistent (onConnect conn w).
Proof.
  intros [Hm Hp]; unfold onConnect; cbn.
  destruct (messages (state w)) eqn:E; cbn.
  - split; [reflexivity|].
    unfold rows_in_past in *; cbn.
    apply rows_in_past_later with (i := tick w); auto.
  - split; [exact Hm | exact Hp].
Qed.

Lemma consistent_run (cbs : list Callback) (w : World) :
  consistent w -> consistent (run w cbs).
Proof.
  revert w; induction cbs as [|cb cbs IH]; intros w Hw; [exact Hw|].
  apply IH; destruct cb;
    [now apply consistent_onConnect | now apply consistent_onMessage].
Qed.

End Mirror.

(* ===================================================================== *)
(** * Facts about the scenarios *)
(* ===================================================================== *)

Lemma chat_hello_command : @chat_command std chat_hello (js "hello").
Proof.
  unfold chat_command, chat_hello.
  eexists _, _, (js " hello ").
  split; [reflexivity|].
  split; [vm_compute; reflexivity|].
  split; [vm_compute; reflexivity|].
  split; [vm_compute; reflexivity|].
  split; [vm_compute; reflexivity|].
  vm_compute; discriminate.
Defined.

Lemma reset_message_command : @reset_command std reset_message.
Proof.
  unfold reset_command, reset_message.
  eexists _, _.
  split; [reflexivity|].
  split; vm_compute; reflexivity.
Defined.

Lemma std_clock_monotone : @clock_monotone std.
Proof.
  intros i j Hij; unfold std, standard_platform, Date_now.
  apply Z.add_le_mono_l, Nat2Z.inj_le, Nat.Div0.div_le_mono, Hij.
Defined.

(* ===================================================================== *)
(** * Properties of the relay *)
(* ===================================================================== *)

Section Relay.

Context `{Platform}.

Lemma chat_positions (conn : Connection) (userText : jsstring)
      (r : AiResult) (w : World) :
  let es := chat_effects conn userText r w in
  position done_sent es
  = Some (if plain r then 5 else 3 + length (reply_deltas r))
  /\ position assistant_written es
     = Some (if plain r then 3 else 4 + length (reply_deltas r)).
Proof.
  unfold chat_effects; cbv zeta.
  assert (Hu : assistant_written
                 (SetState (state (appended user userText w))) = false).
  { unfold appended, state_with; cbn [state messages assistant_written].
    now rewrite rev_app_distr. }
  destruct (plain r).
  - split; cbn [app position done_sent]; [reflexivity|].
    cbn [position]; rewrite Hu; reflexivity.
  - split.
    + cbn [app position done_sent option_map].
      rewrite position_app by apply no_done_in_deltas.
      unfold delta_sends; rewrite length_map.
      cbn [position done_sent option_map]; f_equal; lia.
    + cbn [app position]; rewrite Hu.
      cbn [assistant_written is_assistant role new_row option_map].
      rewrite position_app by apply no_write_in_deltas.
      unfold delta_sends; rewrite length_map.
      cbn [position assistant_written is_assistant assistant_row role
                    option_map].
      f_equal; lia.
Qed.

(** C1 (as amended).  For every completed handling of a chat command in
    which the backend returns a readable stream, or in which invoking the
    backend or reading its stream throws, the assistant message is written
    to the Store and mirrored into the in-memory state only after the [done]
    event of that generation has been sent. *)
Theorem persist_after_done_on_streams (ai : AiBinding) (conn : Connection)
        (message : Inbound) (userText : jsstring) (w : World) :
  chat_command message userText ->
  (backend_reply ai userText w = Rejects
   \/ exists s, backend_reply ai userText w = Resolves (OutStream s)) ->
  before done_sent assistant_written
         (effects_of w (onMessage ai conn message w)).
Proof.
  intros Hc Hr; rewrite (chat_effects_of ai conn w Hc).
  destruct (chat_positions conn userText (backend_reply ai userText w) w)
    as [Hd Hw].
  unfold before.
  destruct Hr as [Hr | (s & Hr)]; rewrite Hr in *; cbn [plain] in *;
    rewrite Hd, Hw; do 2 eexists; (split; [reflexivity|]);
    (split; [reflexivity|]); lia.
Qed.

(** The early return of the non-stream branch: what the backend returned is
    saved inside the [try], and [done] leaves in the [finally] after it. *)
Lemma plain_reply_saved_before_done (ai : AiBinding) (conn : Connection)
      (message : Inbound) (userText : jsstring) (w : World) (out : AiOutput) :
  chat_command message userText ->
  backend_reply ai userText w = Resolves out ->
  isReadableStream out = false ->
  before assistant_written done_sent
         (effects_of w (onMessage ai conn message w)).
Proof.
  intros Hc Hr Hs; rewrite (chat_effects_of ai conn w Hc).
  destruct (chat_positions conn userText (backend_reply ai userText w) w)
    as [Hd Hw].
  unfold before.
  rewrite Hr in *; destruct out as [s | t |]; [discriminate | |];
    cbn [plain] in *; rewrite Hd, Hw; do 2 eexists;
    (split; [reflexivity|]); (split; [reflexivity|]); lia.
Qed.

Lemma slice_last_snoc {A : Type} (n : nat) (l : list A) (x : A) :
  slice_last (S n) (l ++ [x]) = slice_last n l ++ [x].
Proof.
  unfold slice_last; rewrite length_app, skipn_app; simpl.
  replace (length l + 1 - S n) with (length l - n) by lia.
  replace (length l - n - length l) with 0 by lia.
  reflexivity.
Qed.

(** The turn list of a chat command ends with the user turn twice: once
    as the newest row of the history, once appended after it. *)
Lemma chat_turns_end (userText : jsstring) (w : World) :
  chat_turns userText w
  = [system_turn]
      ++ map (fun m => {| ai_role := role m; ai_content := content m |})
             (filter isUserOrAssistant (slice_last 39 (messages (state w))))
      ++ [user_turn userText; user_turn userText].
Proof.
  unfold chat_turns.
  rewrite slice_last_snoc, filter_app, map_app; cbn.
  now rewrite <- app_assoc.
Qed.

(** Every chat command calls the backend once, with [chat_turns]. *)
Lemma chat_calls_backend_once (ai : AiBinding) (conn : Connection)
      (message : Inbound) (userText : jsstring) (w : World) :
  chat_command message userText ->
  ai_calls (effects_of w (onMessage ai conn message w))
  = [chat_turns userText w].
Proof.
  intros Hc; rewrite (chat_effects_of ai conn w Hc).
  unfold chat_effects; cbv zeta.
  destruct (plain _); [reflexivity|].
  cbn [app ai_calls flat_map]; f_equal.
  unfold ai_calls; rewrite flat_map_app.
  induction (reply_deltas _); simpl; auto.
Qed.

(** C3 (as amended).  For a backend byte stream that completes without
    error, whose data lines (those of its blank-line-terminated frames)
    carry the fragment texts F1..Fn, however the bytes are cut into frames
    and chunks: the client observes [delta] events carrying the non-empty
    ones among F1..Fn, in that order (and then [done]), and
    F1 ++ ... ++ Fn is the content of the assistant message persisted for
    that generation. *)
Theorem deltas_are_the_nonempty_fragments (ai : AiBinding)
        (conn : Connection) (message : Inbound) (userText : jsstring)
        (w : World) (s : ByteStream) :
  chat_command message userText ->
  backend_reply ai userText w = Resolves (OutStream s) ->
  ending s = Closed ->
  let w' := onMessage ai conn message w in
  let reply := {| role := assistant;
                  content := concat (stream_fragments (chunks s));
                  ts := Date_now (S (S (tick w))) |} in
  events_to conn (effects_of w w')
  = map Delta (filter nonempty (stream_fragments (chunks s))) ++ [Done]
  /\ table w' = table w ++ [new_row user userText w; reply]
  /\ messages (state w')
     = messages (state w) ++ [new_row user userText w; reply].
Proof.
  intros Hc Hr He w' reply; subst w' reply.
  rewrite (chat_effects_of ai conn w Hc), (onMessage_chat ai conn w Hc).
  rewrite after_chat_table, after_chat_messages, Hr.
  unfold chat_effects, assistant_row;
    cbn [plain reply_text reply_deltas]; rewrite He; cbn [errored].
  rewrite stream_pieces_fragments, concat_filter_nonempty.
  repeat split.
  rewrite !events_to_app, events_to_deltas.
  cbn; now rewrite Nat.eqb_refl.
Qed.

(** C4.  A chat command with non-empty trimmed text emits exactly one
    [done] event, whether the backend returns a stream, a plain text or
    anything else, or throws during invocation or stream reading. *)
Theorem exactly_one_done (ai : AiBinding) (conn : Connection)
        (message : Inbound) (userText : jsstring) (w : World) :
  chat_command message userText ->
  length (filter is_done
                 (events (effects_of w (onMessage ai conn message w)))) = 1.
Proof.
  intros Hc; rewrite (chat_effects_of ai conn w Hc).
  unfold chat_effects; cbv zeta.
  destruct (plain _); [reflexivity|].
  rewrite !events_app, events_deltas, !filter_app, filter_done_deltas.
  reflexivity.
Qed.

(** C5 (as amended).  Every outward event produced while handling a
    command ([delta], [done], [cleared]) is delivered to the connection
    that sent the command, and none of them to any other connection
    attached to the session. *)
Theorem events_reach_the_sender_only (ai : AiBinding) (conn other : Connection)
        (message : Inbound) (w : World) :
  other <> conn ->
  let es := effects_of w (onMessage ai conn message w) in
  events_to conn es = events es /\ events_to other es = [].
Proof.
  intros Ho es; subst es.
  destruct (onMessage_addressed ai conn message w) as (es & Hl & Ha).
  rewrite (effects_of_app _ _ _ Hl).
  destruct (events_to_addressed other Ha); auto.
Qed.

(** C6.  If invoking the backend or reading its stream throws, the text
    accumulated so far is what the [delta] events carried; the persisted
    assistant message is the placeholder "_(stream error)_" when nothing
    was accumulated and exactly the accumulated text otherwise; the only
    events sent are those deltas followed by one [done]. *)
Theorem failure_becomes_placeholder (ai : AiBinding) (conn : Connection)
        (message : Inbound) (userText : jsstring) (w : World) :
  chat_command message userText ->
  (backend_reply ai userText w = Rejects
   \/ exists s, backend_reply ai userText w = Resolves (OutStream s)
                /\ ending s = Errored) ->
  let w' := onMessage ai conn message w in
  let deltas := delta_texts (events (effects_of w w')) in
  let accumulated := concat deltas in
  let reply := {| role := assistant;
                  content := if isEmpty accumulated
                             then js "_(stream error)_" else accumulated;
                  ts := Date_now (S (S (tick w))) |} in
  events (effects_of w w') = map Delta deltas ++ [Done]
  /\ (backend_reply ai userText w = Rejects -> accumulated = [])
  /\ table w' = table w ++ [new_row user userText w; reply]
  /\ messages (state w')
     = messages (state w) ++ [new_row user userText w; reply].
Proof.
  intros Hc Hr w' deltas accumulated reply;
    subst w' deltas accumulated reply.
  rewrite (chat_effects_of ai conn w Hc), (onMessage_chat ai conn w Hc).
  rewrite after_chat_table, after_chat_messages.
  unfold chat_effects, assistant_row.
  destruct Hr as [Hr | (s & Hr & He)]; rewrite Hr;
    cbn [plain reply_text reply_deltas].
  - repeat split.
  - rewrite He; cbn [errored].
    rewrite !events_app, events_deltas, !delta_texts_app, delta_texts_deltas.
    cbn [events flat_map delta_texts app]; rewrite !app_nil_r.
    repeat split; discriminate.
Qed.

Lemma not_recognized (type : option JSON) :
  ~ recognized type ->
  is_string (js "model") type = false
  /\ is_string (js "reset") type = false
  /\ is_string (js "chat") type = false.
Proof.
  intros Hn; repeat split;
    match goal with
    | |- is_string ?l ?t = false =>
        destruct (is_string l t) eqn:E; [|reflexivity];
        apply is_string_eq in E; exfalso; apply Hn; unfold recognized; auto
    end.
Qed.

(** C7.  An inbound message that is not valid JSON, that has no [type]
    field, or whose [type] is not one the dispatch knows, leaves the whole
    world as it was: state (model, messages, timestamps), Store rows, and
    trace (no event is sent). *)
Theorem malformed_message_is_ignored (ai : AiBinding) (conn : Connection)
        (text : jsstring) (w : World) :
  JSON_parse text = None
  \/ (exists data, JSON_parse text = Some data
                   /\ prop (js "type") data = None)
  \/ (exists data, JSON_parse text = Some data
                   /\ ~ recognized (prop (js "type") data)) ->
  onMessage ai conn (Text text) w = w.
Proof.
  unfold onMessage.
  intros [Hp | [(data & Hp & Ht) | (data & Hp & Ht)]]; rewrite Hp;
    [reflexivity | now rewrite Ht |].
  cbv zeta; destruct (not_recognized Ht) as (-> & -> & ->).
  now destruct (truthy (prop (js "type") data)).
Qed.

(** C8.  A reset command deletes all Store rows, then replaces the
    in-memory state by one with an empty log, the model it had, a new
    [createdAt] and an [expiresAt] one day after the clock, and sends
    [cleared]; a second reset, on the log now empty, does the same. *)
Theorem reset_truncates_and_repeats (ai ai' : AiBinding)
        (conn conn' : Connection) (message message' : Inbound) (w : World) :
  reset_command message ->
  reset_command message' ->
  let w1 := onMessage ai conn message w in
  let w2 := onMessage ai' conn' message' w1 in
  (table w1 = []
   /\ state w1 = {| model := model (state w);
                    messages := [];
                    createdAt := Date_now (tick w);
                    expiresAt := (Date_now (S (tick w)) + 86400000)%Z |}
   /\ effects_of w w1 = [SqlDelete; SetState (state w1); Send conn Cleared])
  /\ (table w2 = []
      /\ state w2 = {| model := model (state w);
                       messages := [];
                       createdAt := Date_now (tick w1);
                       expiresAt := (Date_now (S (tick w1)) + 86400000)%Z |}
      /\ effects_of w1 w2
         = [SqlDelete; SetState (state w2); Send conn' Cleared]).
Proof.
  intros Hr Hr' w1 w2; subst w1 w2.
  rewrite (onMessage_reset ai conn w Hr).
  rewrite (onMessage_reset ai' conn' (after_reset conn w) Hr').
  repeat split; now apply effects_of_app.
Qed.

(** C9.  With a clock that never goes back, from a world whose in-memory
    log is what the Store selects by ascending timestamp, every sequence
    of callbacks keeps it so, equal timestamps included: after each
    callback, and in the middle of a chat command between the append of
    the user message and the generation. *)
Theorem memory_log_is_store_order (cbs : list Callback) (w : World) :
  clock_monotone ->
  mirrored w ->
  rows_in_past w ->
  mirrored (run w cbs)
  /\ forall ai conn message userText,
       chat_command message userText ->
       exists mid,
         mirrored mid
         /\ table mid = table (run w cbs) ++ [new_row user userText (run w cbs)]
         /\ onMessage ai conn message (run w cbs)
            = streamAssistant ai conn (chat_turns userText (run w cbs)) mid.
Proof.
  intros Hclock Hm Hp.
  assert (Hw : consistent (run w cbs))
    by (apply consistent_run; [exact Hclock | now split]).
  split; [apply Hw|].
  intros ai conn message userText Hc.
  exists (appended user userText (run w cbs)); split; [|split].
  - now apply consistent_appended.
  - reflexivity.
  - rewrite (onMessage_chat ai conn (run w cbs) Hc), streamAssistant_spec.
    reflexivity.
Qed.

(** C10.  If what the backend returns is neither a readable stream nor a
    string, no [delta] event is sent and the assistant message persisted
    has the content "[no response]". *)
Theorem neither_stream_nor_string (ai : AiBinding) (conn : Connection)
        (message : Inbound) (userText : jsstring) (w : World)
        (out : AiOutput) :
  chat_command message userText ->
  backend_reply ai userText w = Resolves out ->
  isReadableStream out = false ->
  (forall t, out <> OutString t) ->
  let w' := onMessage ai conn message w in
  let reply := {| role := assistant;
                  content := js "[no response]";
                  ts := Date_now (S (S (tick w))) |} in
  delta_texts (events (effects_of w w')) = []
  /\ table w' = table w ++ [new_row user userText w; reply]
  /\ messages (state w')
     = messages (state w) ++ [new_row user userText w; reply].
Proof.
  intros Hc Hr Hs Ht w' reply; subst w' reply.
  rewrite (chat_effects_of ai conn w Hc), (onMessage_chat ai conn w Hc).
  rewrite after_chat_table, after_chat_messages, Hr.
  destruct out as [s | t |]; [discriminate | now destruct (Ht t) |].
  repeat split.
Qed.

End Relay.

(* ===================================================================== *)
(** * The properties at work on the scenarios *)
(* ===================================================================== *)

Section Scenarios.

#[local] Existing Instance std.

(** C1, counterexample.  A chat command answered by a plain string: the
    assistant message is written before [done] is sent. *)
Lemma plain_text_is_persisted_before_done :
  chat_command chat_hello (js "hello")
  /\ ~ before done_sent assistant_written
         (effects_of session1
            (onMessage (answering (js "Hi")) 1 chat_hello session1)).
Proof.
  split; [exact chat_hello_command|].
  intros (i & j & Hi & Hj & Hlt).
  vm_compute in Hi, Hj.
  injection Hi as <-; injection Hj as <-; lia.
Qed.

Lemma persist_after_done_on_streams_witness :
  chat_command chat_hello (js "hello")
  /\ (exists s, backend_reply (streaming hi_there) (js "hello") session1
                = Resolves (OutStream s))
  /\ before done_sent assistant_written
       (effects_of session1
          (onMessage (streaming hi_there) 1 chat_hello session1)).
Proof.
  assert (Hs : exists s,
             backend_reply (streaming hi_there) (js "hello") session1
             = Resolves (OutStream s)) by (exists hi_there; reflexivity).
  split; [exact chat_hello_command|].
  split; [exact Hs|].
  exact (@persist_after_done_on_streams std (streaming hi_there) 1
           chat_hello (js "hello") session1 chat_hello_command
           (or_intror Hs)).
Defined.

(** C2, the defect at work.  In a fresh session the command
    [{"type":"chat","text":" hello "}] calls the backend once, with the
    system turn followed by the user turn "hello" twice. *)
Theorem hello_is_sent_twice :
  ai_calls (effects_of session1
              (onMessage (streaming hi_there) 1 chat_hello session1))
  = [[system_turn; user_turn (js "hello"); user_turn (js "hello")]].
Proof.
  rewrite (chat_calls_backend_once (streaming hi_there) 1 session1
             chat_hello_command).
  rewrite chat_turns_end.
  reflexivity.
Qed.

(** C3, counterexample.  A stream whose only data line carries the empty
    fragment text: F1 is the empty string, and no [delta] carries it. *)
Lemma empty_fragment_yields_no_delta :
  chat_command chat_hello (js "hello")
  /\ stream_fragments (chunks empty_fragment) = [[]]
  /\ delta_texts
       (events_to 1
          (effects_of session1
             (onMessage (streaming empty_fragment) 1 chat_hello session1)))
     <> stream_fragments (chunks empty_fragment).
Proof.
  split; [exact chat_hello_command|].
  split; vm_compute; [reflexivity | discriminate].
Qed.

Lemma deltas_are_the_nonempty_fragments_witness :
  chat_command chat_hello (js "hello")
  /\ ending hi_there = Closed
  /\ events_to 1
       (effects_of session1
          (onMessage (streaming hi_there) 1 chat_hello session1))
     = [Delta (js "Hi"); Delta (js " there"); Done]
  /\ map content
         (table (onMessage (streaming hi_there) 1 chat_hello session1))
     = [js "hello"; js "Hi there"].
Proof.
  split; [exact chat_hello_command|].
  split; [reflexivity|].
  destruct (@deltas_are_the_nonempty_fragments std (streaming hi_there) 1
              chat_hello (js "hello") session1 hi_there
              chat_hello_command eq_refl eq_refl) as (Hd & Ht & _).
  split; [rewrite Hd | rewrite Ht]; vm_compute; reflexivity.
Defined.

Lemma exactly_one_done_witness :
  chat_command chat_hello (js "hello")
  /\ length (filter is_done
               (events (effects_of session1
                          (onMessage failing 1 chat_hello session1)))) = 1.
Proof.
  split; [exact chat_hello_command|].
  exact (@exactly_one_done std failing 1 chat_hello (js "hello") session1
           chat_hello_command).
Defined.

(** C5, counterexample.  With two connections attached, a reset sent by
    the first produces [cleared], which the second never receives. *)
Lemma second_connection_misses_cleared :
  conns session2 = [1; 2]
  /\ events (effects_of session2 (onMessage failing 1 reset_message session2))
     = [Cleared]
  /\ ~ (forall c, In c (conns session2) ->
          events_to c (effects_of session2
                         (onMessage failing 1 reset_message session2))
          = events (effects_of session2
                      (onMessage failing 1 reset_message session2))).
Proof.
  split; [reflexivity|].
  split; [vm_compute; reflexivity|].
  intros Hall; specialize (Hall 2 (or_intror (or_introl eq_refl))).
  vm_compute in Hall; discriminate.
Qed.

Lemma events_reach_the_sender_only_witness :
  2 <> 1
  /\ events_to 1 (effects_of session2
                    (onMessage (streaming hi_there) 1 chat_hello session2))
     = events (effects_of session2
                 (onMessage (streaming hi_there) 1 chat_hello session2))
  /\ events_to 2 (effects_of session2
                    (onMessage (streaming hi_there) 1 chat_hello session2))
     = [].
Proof.
  assert (Hne : 2 <> 1) by discriminate.
  split; [exact Hne|].
  exact (@events_reach_the_sender_only std (streaming hi_there) 1 2
           chat_hello session2 Hne).
Defined.

Lemma failure_becomes_placeholder_witness :
  chat_command chat_hello (js "hello")
  /\ (exists s, backend_reply (streaming hi_then_error) (js "hello") session1
                = Resolves (OutStream s) /\ ending s = Errored)
  /\ events (effects_of session1
               (onMessage (streaming hi_then_error) 1 chat_hello session1))
     = [Delta (js "Hi"); Done]
  /\ map content
         (table (onMessage (streaming hi_then_error) 1 chat_hello session1))
     = [js "hello"; js "Hi"].
Proof.
  assert (Hs : exists s,
             backend_reply (streaming hi_then_error) (js "hello") session1
             = Resolves (OutStream s) /\ ending s = Errored)
    by (exists hi_then_error; split; reflexivity).
  split; [exact chat_hello_command|].
  split; [exact Hs|].
  destruct (@failure_becomes_placeholder std (streaming hi_then_error) 1
              chat_hello (js "hello") session1 chat_hello_command
              (or_intror Hs)) as (He & _ & Ht & _).
  split; [rewrite He | rewrite Ht]; vm_compute; reflexivity.
Defined.

(** C6, the other case: the invocation itself throws, nothing was
    accumulated, and the placeholder is persisted after a lone [done]. *)
Example rejected_run_persists_placeholder :
  events (effects_of session1 (onMessage failing 1 chat_hello session1))
  = [Done]
  /\ map content (table (onMessage failing 1 chat_hello session1))
     = [js "hello"; js "_(stream error)_"].
Proof. split; vm_compute; reflexivity. Qed.

Lemma malformed_message_is_ignored_witness :
  (exists data, JSON_parse unknown_message = Some data
                /\ ~ recognized (prop (js "type") data))
  /\ onMessage failing 1 (Text unknown_message) session1 = session1.
Proof.
  assert (Hu : exists data, JSON_parse unknown_message = Some data
                            /\ ~ recognized (prop (js "type") data)).
  { eexists; split; [vm_compute; reflexivity|].
    intros [E | [E | E]]; vm_compute in E; discriminate. }
  split; [exact Hu|].
  exact (@malformed_message_is_ignored std failing 1 unknown_message session1
           (or_intror (or_intror Hu))).
Defined.

(** C7 on the other two messages of the specification: an empty object
    and a text that is not JSON. *)
Example empty_object_and_garbage_are_ignored :
  onMessage failing 1 (Text empty_object) session1 = session1
  /\ onMessage failing 1 (Text (js "not json")) session1 = session1
  /\ onMessage failing 1 Binary session1 = session1.
Proof. repeat split; vm_compute; reflexivity. Qed.

Lemma reset_truncates_and_repeats_witness :
  reset_command reset_message
  /\ table (onMessage failing 1 reset_message rehydrated) = []
  /\ messages (state (onMessage failing 1 reset_message rehydrated)) = []
  /\ events (effects_of rehydrated
               (run rehydrated [Message failing 1 reset_message;
                                Message failing 1 reset_message]))
     = [Cleared; Cleared].
Proof.
  split; [exact reset_message_command|].
  destruct (@reset_truncates_and_repeats std failing failing 1 1
              reset_message reset_message rehydrated
              reset_message_command reset_message_command)
    as ((Ht & Hs & _) & _).
  split; [exact Ht|].
  split; [rewrite Hs; reflexivity|].
  vm_compute; reflexivity.
Defined.

Lemma memory_log_is_store_order_witness :
  clock_monotone
  /\ mirrored rehydrated
  /\ rows_in_past rehydrated
  /\ mirrored (run rehydrated two_chats).
Proof.
  assert (Hm : mirrored rehydrated) by (vm_compute; reflexivity).
  assert (Hp : rows_in_past rehydrated)
    by (repeat constructor; vm_compute; discriminate).
  split; [exact std_clock_monotone|].
  split; [exact Hm|].
  split; [exact Hp|].
  exact (proj1 (@memory_log_is_store_order std two_chats rehydrated
                  std_clock_monotone Hm Hp)).
Defined.

(** C9 on the scenario: the rows selected by ascending timestamp keep the
    insertion order of equal timestamps, at hydration and after appends. *)
Example equal_timestamps_keep_insertion_order :
  map content (messages (state rehydrated)) = [js "c"; js "a"; js "b"]
  /\ map ts (table (run rehydrated two_chats))
     = [5; 5; 3; 1700000000000; 1700000000001; 1700000000001;
        1700000000002; 1700000000002; 1700000000003]%Z
  /\ messages (state (run rehydrated two_chats))
     = select_ordered (table (run rehydrated two_chats)).
Proof. repeat split; vm_compute; reflexivity. Qed.

Lemma neither_stream_nor_string_witness :
  chat_command chat_hello (js "hello")
  /\ isReadableStream OutOther = false
  /\ (forall t, OutOther <> OutString t)
  /\ delta_texts
       (events (effects_of session1
                  (onMessage answering_object 1 chat_hello session1))) = []
  /\ map content (table (onMessage answering_object 1 chat_hello session1))
     = [js "hello"; js "[no response]"].
Proof.
  assert (Ht : forall t, OutOther <> OutString t) by discriminate.
  split; [exact chat_hello_command|].
  split; [reflexivity|].
  split; [exact Ht|].
  destruct (@neither_stream_nor_string std answering_object 1 chat_hello
              (js "hello") session1 OutOther chat_hello_command eq_refl
              eq_refl Ht) as (Hd & Htab & _).
  split; [exact Hd | rewrite Htab; vm_compute; reflexivity].
Defined.

(** Chunk boundaries are invisible: one byte per chunk, or a character and
    a blank line cut in two, give the events of the whole text. *)
Example chunking_is_invisible :
  events (effects_of session1
            (onMessage (streaming hi_there_bytewise) 1 chat_hello session1))
  = [Delta (js "Hi"); Delta (js " there"); Done]
  /\ events (effects_of session1
               (onMessage (streaming split_character) 1 chat_hello session1))
     = [Delta (js "caf" ++ [233%N]); Done].
Proof. split; vm_compute; reflexivity. Qed.

(** The end-to-end scenario of the specification. *)
Example end_to_end :
  events (effects_of session1
            (onMessage (streaming hi_there) 1 chat_hello session1))
  = [Delta (js "Hi"); Delta (js " there"); Done]
  /\ map (fun m => (role m, content m))
         (table (onMessage (streaming hi_there) 1 chat_hello session1))
     = [(user, js "hello"); (assistant, js "Hi there")].
Proof. split; vm_compute; reflexivity. Qed.

End Scenarios.


(* ===================================================================== *)
(** * Lemmas on trimming *)
(* ===================================================================== *)

Lemma trimStart_blank (s : jsstring) : blank s = true -> trimStart s = [].
Proof.
  induction s as [|c s IH]; simpl; [easy|].
  intros E; apply andb_true_iff in E as [-> Es]; auto.
Qed.

Lemma trimStart_head (s : jsstring) (c : codeunit) (t : jsstring) :
  trimStart s = c :: t -> is_js_space c = false.
Proof.
  induction s as [|x s IH]; simpl; [easy|].
  destruct (is_js_space x) eqn:Ex; [exact IH|].
  now intros [= <- _].
Qed.

Lemma trimStart_fixed (s : jsstring) :
  match s with [] => True | c :: _ => is_js_space c = false end ->
  trimStart s = s.
Proof. destruct s as [|c t]; simpl; [easy|]; now intros ->. Qed.

Lemma trimStart_suffix (s : jsstring) : exists p, s = p ++ trimStart s.
Proof.
  induction s as [|x s [p IH]]; simpl; [now exists []|].
  destruct (is_js_space x); [|now exists []].
  exists (x :: p); simpl; now f_equal.
Qed.

Lemma trimEnd_prefix (s : jsstring) : exists q, s = trimEnd s ++ q.
Proof.
  unfold trimEnd; destruct (trimStart_suffix (rev s)) as [p Hp].
  exists (rev p).
  rewrite <- rev_app_distr, <- Hp; symmetry; apply rev_involutive.
Qed.

Lemma trim_blank (s : jsstring) : blank s = true -> trim s = [].
Proof. intros Hb; unfold trim; now rewrite (trimStart_blank _ Hb). Qed.

(** Trimming what is already trimmed changes nothing. *)
Lemma trim_idempotent (s : jsstring) : trim (trim s) = trim s.
Proof.
  assert (Hend : forall x, trimEnd (trimEnd x) = trimEnd x).
  { intros x; unfold trimEnd; rewrite rev_involutive; f_equal.
    apply trimStart_fixed.
    destruct (trimStart (rev x)) as [|c t] eqn:E; [easy|].
    now apply trimStart_head in E. }
  unfold trim at 1.
  rewrite trimStart_fixed; [apply Hend|].
  unfold trim.
  destruct (trimEnd_prefix (trimStart s)) as [q Hq].
  destruct (trimEnd (trimStart s)) as [|c t]; [easy|].
  apply (trimStart_head s (t := t ++ q)); exact Hq.
Qed.

(* ===================================================================== *)
(** * Further properties of the agent *)
(* ===================================================================== *)

Section MoreRelay.

Context `{Platform}.

Ltac world_eq :=
  unfold after_reset, after_model, appended, send, setState, sql_insert,
    sql_delete, emit, emit_all, now;
  cbn [state table tick conns log fst snd];
  rewrite <- ?app_assoc; reflexivity.

(** A model command goes the model way. *)
Lemma onMessage_model (ai : AiBinding) (conn : Connection)
      (message : Inbound) (m : JSON) (w : World) :
  model_command message m ->
  onMessage ai conn message w = after_model m w.
Proof.
  intros (text & data & -> & Hp & Hty & Hm & Htr).
  unfold onMessage; rewrite Hp; cbv zeta; rewrite Hty, Hm, Htr.
  change (truthy (Some (JStr (js "model")))) with true.
  change (is_string (js "model") (Some (JStr (js "model")))) with true.
  cbn [negb andb]; world_eq.
Qed.

(** Every way [onMessage] can go, with the command that leads there. *)
Lemma onMessage_outcomes (ai : AiBinding) (conn : Connection)
      (message : Inbound) (w : World) :
  onMessage ai conn message w = w
  \/ (exists m, model_command message m
                /\ onMessage ai conn message w = after_model m w)
  \/ (reset_command message
      /\ onMessage ai conn message w = after_reset conn w)
  \/ (exists userText,
         chat_command message userText
         /\ onMessage ai conn message w
            = after_chat conn userText (backend_reply ai userText w) w)
  \/ onMessage ai conn message w = emit (Uncaught "TypeError") w.
Proof.
  destruct message as [text|]; [|now left].
  unfold onMessage.
  destruct (JSON_parse text) as [data|] eqn:Ep; [|now left].
  cbv zeta.
  destruct (truthy (prop (js "type") data)); cbn [negb]; [|now left].
  destruct (is_string (js "model") (prop (js "type") data)
            && truthy (prop (js "model") data)) eqn:Em.
  { apply andb_true_iff in Em as [Ety Etr].
    destruct (prop (js "model") data) as [m|] eqn:Epm; [|now left].
    right; left; exists m; split; [|world_eq].
    exists text, data; auto using is_string_eq. }
  destruct (is_string (js "reset") (prop (js "type") data)) eqn:Er.
  { right; right; left; split; [|world_eq].
    exists text, data; auto using is_string_eq. }
  destruct (is_string (js "chat") (prop (js "type") data)) eqn:Ec; [|now left].
  apply is_string_eq in Ec.
  assert (Hgo : forall s,
             trim s <> [] -> prop (js "text") data = Some (JStr s) ->
             chat_command (Text text) (trim s)).
  { intros s Hs Ht; exists text, data, s; auto 10. }
  destruct (prop (js "text") data) as [v|] eqn:Et; cbn [truthy].
  - destruct v as [| b | m e | s | l | l]; cbn [truthy].
    + now left.
    + destruct b; [now right; right; right; right | now left].
    + destruct (num_is_zero m e); cbn [negb];
        [now left | now right; right; right; right].
    + destruct (isEmpty s) eqn:Es; cbn [negb].
      * now left.
      * destruct (isEmpty (trim s)) eqn:Et'; [now left|].
        right; right; right; left; exists (trim s); split.
        { apply Hgo; [|reflexivity].
          intros E; rewrite E in Et'; discriminate. }
        apply chat_branch.
    + now right; right; right; right.
    + now right; right; right; right.
  - now left.
Qed.

End MoreRelay.

Section AgentProperties.

Context `{Platform}.

Lemma onConnect_state (conn : Connection) (w : World) :
  state (onConnect conn w)
  = match messages (state w) with
    | [] => {| model := model (state w);
               messages := select_ordered (table w);
               createdAt := createdAt (state w);
               expiresAt := (Date_now (tick w) + DAY)%Z |}
    | _ :: _ => state w
    end.
Proof. unfold onConnect; cbn; now destruct (messages (state w)). Qed.

Lemma onConnect_table (conn : Connection) (w : World) :
  table (onConnect conn w) = table w.
Proof. unfold onConnect; cbn; now destruct (messages (state w)). Qed.

Lemma onConnect_tick (conn : Connection) (w : World) :
  tick (onConnect conn w)
  = match messages (state w) with [] => S (tick w) | _ :: _ => tick w end.
Proof. unfold onConnect; cbn; now destruct (messages (state w)). Qed.

Lemma onConnect_effects (conn : Connection) (w : World) :
  effects_of w (onConnect conn w)
  = match messages (state w) with
    | [] => [SqlCreateTable; SqlSelect; SetState (state (onConnect conn w));
             Send conn (Ready (state (onConnect conn w)))]
    | _ :: _ => [SqlCreateTable; Send conn (Ready (state w))]
    end.
Proof.
  apply effects_of_app; rewrite onConnect_state.
  unfold onConnect; cbn; destruct (messages (state w)); cbn;
    now rewrite <- ?app_assoc.
Qed.

(** X1.  Hydration is idempotent: a further connection changes neither the
    in-memory log, nor the model, nor [createdAt], nor the Store; it sends
    one [ready] carrying the state, and it reads the Store again exactly
    when the in-memory log is still empty. *)
Theorem hydration_is_idempotent (conn conn' : Connection) (w : World) :
  let w1 := onConnect conn w in
  let w2 := onConnect conn' w1 in
  messages (state w2) = messages (state w1)
  /\ model (state w2) = model (state w1)
  /\ createdAt (state w2) = createdAt (state w1)
  /\ table w2 = table w
  /\ events (effects_of w1 w2) = [Ready (state w2)]
  /\ (In SqlSelect (effects_of w1 w2) <-> messages (state w1) = []).
Proof.
  intros w1 w2; subst w1 w2.
  rewrite (onConnect_effects conn' (onConnect conn w)).
  rewrite (onConnect_state conn' (onConnect conn w)), !onConnect_table.
  destruct (messages (state (onConnect conn w))) as [|m l] eqn:E1.
  - cbn [messages model createdAt].
    repeat split; try reflexivity; [|cbn; auto].
    rewrite onConnect_state in E1.
    destruct (messages (state w)) eqn:E0; cbn [messages] in E1; congruence.
  - repeat split; try reflexivity; try discriminate; [exact E1|].
    intros [F | [F | []]]; discriminate.
Qed.

(** X2.  A model command with a truthy [model] sends no event and touches
    neither the log nor the Store; it sets the model and refreshes
    [expiresAt], and the next chat command calls the backend with that
    model. *)
Theorem model_command_selects_the_backend_model (ai ai' : AiBinding)
        (conn conn' : Connection) (message message' : Inbound) (m : JSON)
        (userText : jsstring) (w : World) :
  model_command message m ->
  chat_command message' userText ->
  let w1 := onMessage ai conn message w in
  let w2 := onMessage ai' conn' message' w1 in
  events (effects_of w w1) = []
  /\ table w1 = table w
  /\ state w1 = {| model := m;
                   messages := messages (state w);
                   createdAt := createdAt (state w);
                   expiresAt := (Date_now (tick w) + 86400000)%Z |}
  /\ exists turns, In (AiRun m turns) (effects_of w1 w2).
Proof.
  intros Hm Hc w1 w2; subst w1 w2.
  rewrite (onMessage_model ai conn w Hm).
  repeat split.
  - rewrite (effects_of_app w (after_model m w) [SetState (state (after_model m w))]);
      reflexivity.
  - rewrite (chat_effects_of ai' conn' (after_model m w) Hc).
    exists (chat_turns userText (after_model m w)).
    unfold chat_effects; cbv zeta; right; right; left.
    f_equal.
    destruct Hm as (_ & _ & _ & _ & _ & _ & Htr).
    unfold model_arg, after_model; cbn [state model]; now rewrite Htr.
Qed.

(** X3.  A model command whose [model] is absent or falsy (null, false, 0,
    the empty string) is ignored: nothing changes and nothing is sent. *)
Theorem model_command_without_model_is_ignored (ai : AiBinding)
        (conn : Connection) (text : jsstring) (data : JSON) (w : World) :
  JSON_parse text = Some data ->
  prop (js "type") data = Some (JStr (js "model")) ->
  truthy (prop (js "model") data) = false ->
  onMessage ai conn (Text text) w = w.
Proof.
  intros Hp Hty Hm; unfold onMessage; rewrite Hp; cbv zeta; rewrite Hty, Hm.
  reflexivity.
Qed.

(** X4.  A chat command whose [text] is absent, falsy, or a string made of
    white space only is ignored: no row is written, the backend is not
    called, and no event (not even [done]) is sent. *)
Theorem blank_chat_is_ignored (ai : AiBinding) (conn : Connection)
        (text : jsstring) (data : JSON) (w : World) :
  JSON_parse text = Some data ->
  prop (js "type") data = Some (JStr (js "chat")) ->
  (truthy (prop (js "text") data) = false
   \/ exists s, prop (js "text") data = Some (JStr s) /\ blank s = true) ->
  onMessage ai conn (Text text) w = w.
Proof.
  intros Hp Hty Ht; unfold onMessage; rewrite Hp; cbv zeta; rewrite Hty.
  change (truthy (Some (JStr (js "chat")))) with true.
  change (is_string (js "model") (Some (JStr (js "chat")))) with false.
  change (is_string (js "reset") (Some (JStr (js "chat")))) with false.
  change (is_string (js "chat") (Some (JStr (js "chat")))) with true.
  cbn [negb andb].
  destruct Ht as [Ht | (s & Ht & Hb)]; rewrite Ht; [reflexivity|].
  destruct (truthy (Some (JStr s))); [now rewrite (trim_blank _ Hb) | reflexivity].
Qed.

(** X5.  A chat command whose [text] is truthy but not a string (a number,
    true, an array, an object) makes the handler throw a TypeError before
    it does anything: state, Store and clock are untouched, the backend is
    not called and no event is sent, [done] included. *)
Theorem non_string_chat_text_throws (ai : AiBinding) (conn : Connection)
        (text : jsstring) (data v : JSON) (w : World) :
  JSON_parse text = Some data ->
  prop (js "type") data = Some (JStr (js "chat")) ->
  prop (js "text") data = Some v ->
  truthy (Some v) = true ->
  (forall s, v <> JStr s) ->
  let w' := onMessage ai conn (Text text) w in
  effects_of w w' = [Uncaught "TypeError"]
  /\ state w' = state w /\ table w' = table w /\ tick w' = tick w.
Proof.
  intros Hp Hty Ht Htr Hns w'; subst w'.
  assert (E : onMessage ai conn (Text text) w = emit (Uncaught "TypeError") w).
  { unfold onMessage; rewrite Hp; cbv zeta; rewrite Hty, Ht, Htr.
    destruct v as [| b | m e | s | l | l]; try reflexivity.
    now destruct (Hns s). }
  rewrite E; repeat split.
  now apply effects_of_app.
Qed.

Lemma slice_last_length {A : Type} (n : nat) (l : list A) :
  length (slice_last n l) <= n.
Proof. unfold slice_last; rewrite length_skipn; lia. Qed.

(** X6.  The turn list of a chat command is bounded and clean: the system
    turn first, then at most 41 turns, each a user or an assistant turn;
    tool rows of the log never reach the backend. *)
Theorem backend_turns_are_bounded (ai : AiBinding) (conn : Connection)
        (message : Inbound) (userText : jsstring) (w : World) :
  chat_command message userText ->
  exists rest,
    ai_calls (effects_of w (onMessage ai conn message w))
    = [system_turn :: rest]
    /\ length rest <= 41
    /\ Forall (fun t => ai_role t = user \/ ai_role t = assistant) rest.
Proof.
  intros Hc; rewrite (chat_calls_backend_once ai conn w Hc).
  unfold chat_turns; cbn [app].
  eexists; split; [reflexivity|]; split.
  - rewrite length_app, length_map; cbn [length].
    pose proof (filter_length_le isUserOrAssistant
                  (slice_last 40 (messages (state w)
                                    ++ [new_row user userText w]))).
    pose proof (slice_last_length 40
                  (messages (state w) ++ [new_row user userText w])).
    lia.
  - apply Forall_app; split; [|repeat constructor; now left].
    apply Forall_map, Forall_forall; intros m Hm.
    apply filter_In in Hm as [_ Hm]; unfold isUserOrAssistant in Hm.
    cbn [ai_role]; destruct (role m); auto; discriminate.
Qed.

Lemma no_frame_no_piece (s : list (list byte)) :
  indexOf LFLF (decoded (concat s)) = None -> stream_pieces s = [].
Proof.
  intros Hn; rewrite stream_pieces_fragments; unfold stream_fragments.
  now destruct (frames_none _ Hn) as [-> _].
Qed.

(** X7.  A stream whose decoded text never contains a blank line (two
    consecutive line feeds) relays nothing: the only event is [done], and
    the assistant row persisted is empty when the stream closes and the
    placeholder when it fails. *)
Theorem stream_without_blank_line_relays_nothing (ai : AiBinding)
        (conn : Connection) (message : Inbound) (userText : jsstring)
        (w : World) (s : ByteStream) :
  chat_command message userText ->
  backend_reply ai userText w = Resolves (OutStream s) ->
  indexOf LFLF (decoded (concat (chunks s))) = None ->
  let w' := onMessage ai conn message w in
  let reply := {| role := assistant;
                  content := match ending s with
                             | Closed => []
                             | Errored => js "_(stream error)_"
                             end;
                  ts := Date_now (S (S (tick w))) |} in
  events (effects_of w w') = [Done]
  /\ table w' = table w ++ [new_row user userText w; reply].
Proof.
  intros Hc Hr Hn w' reply; subst w' reply.
  rewrite (chat_effects_of ai conn w Hc), (onMessage_chat ai conn w Hc).
  rewrite after_chat_table, Hr.
  unfold chat_effects, assistant_row; cbn [plain reply_text reply_deltas].
  rewrite (no_frame_no_piece _ Hn).
  split; [reflexivity|].
  now destruct (ending s).
Qed.

(** X8.  Chunk boundaries are invisible: two streams that deliver the same
    bytes and end the same way, however cut into chunks, leave the same
    world (events, rows, state and trace). *)
Theorem chunking_does_not_matter (ai ai' : AiBinding) (conn : Connection)
        (message : Inbound) (userText : jsstring) (w : World)
        (s s' : ByteStream) :
  chat_command message userText ->
  backend_reply ai userText w = Resolves (OutStream s) ->
  backend_reply ai' userText w = Resolves (OutStream s') ->
  concat (chunks s) = concat (chunks s') ->
  ending s = ending s' ->
  onMessage ai conn message w = onMessage ai' conn message w.
Proof.
  intros Hc Hr Hr' Hb He.
  rewrite (onMessage_chat ai conn w Hc), (onMessage_chat ai' conn w Hc).
  rewrite Hr, Hr'; unfold after_chat; cbn [plain reply_text reply_deltas].
  rewrite !stream_pieces_fragments, (stream_fragments_rechunk _ _ Hb), He.
  reflexivity.
Qed.

End AgentProperties.

Section AgentInvariants.

Context `{Platform}.




Lemma expiry_fresh_appended (r : Role) (text : jsstring) (w : World) :
  expiry_fresh (appended r text w).
Proof. split; cbn; [lia | reflexivity]. Qed.

Lemma expiry_fresh_handle (cb : Callback) (w : World) :
  expiry_fresh w -> expiry_fresh (handle w cb).
Proof.
  intros Hw; destruct cb as [conn | ai conn message]; cbn [handle].
  - unfold expiry_fresh; rewrite onConnect_state, onConnect_tick.
    destruct (messages (state w)); [split; cbn; [lia | reflexivity] | exact Hw].
  - destruct (onMessage_outcomes ai conn message w)
      as [E | [(m & _ & E) | [(_ & E) | [(u & _ & E) | E]]]]; rewrite E;
      try exact Hw; try (split; cbn; [lia | reflexivity]).
    unfold after_chat; cbv zeta; destruct (plain _);
      [apply (expiry_fresh_appended assistant) | apply expiry_fresh_appended].
Qed.

(** X10.  The expiry is always fresh: from a world where [expiresAt] is one
    day after the latest clock reading, every sequence of callbacks leaves
    it one day after the latest clock reading, whatever the commands were
    and however the backend answered. *)
Theorem expiry_follows_the_clock (cbs : list Callback) (w : World) :
  expiry_fresh w -> expiry_fresh (run w cbs).
Proof.
  revert w; induction cbs as [|cb cbs IH]; intros w Hw; [exact Hw|].
  apply IH, expiry_fresh_handle, Hw.
Qed.

(** X11.  Only a model command changes the model, and only a reset changes
    [createdAt]: connecting, chatting (whatever the backend does) and
    ignored or failing messages leave both as they were. *)
Theorem model_and_creation_time_are_stable (cb : Callback) (w : World) :
  (model (state (handle w cb)) = model (state w) \/ is_model_change cb)
  /\ (createdAt (state (handle w cb)) = createdAt (state w) \/ is_reset cb).
Proof.
  destruct cb as [conn | ai conn message];
    cbn [handle is_reset is_model_change].
  - rewrite onConnect_state; destruct (messages (state w)); split; now left.
  - destruct (onMessage_outcomes ai conn message w)
      as [E | [(m & Hm & E) | [(Hr & E) | [(u & _ & E) | E]]]]; rewrite E.
    + split; now left.
    + split; [right; now exists m | now left].
    + split; [now left | now right].
    + split; left; unfold after_chat; cbv zeta; now destruct (plain _).
    + split; now left.
Qed.

(** X12.  A reset cuts the backend off from the earlier conversation: the
    chat command that follows a reset calls the backend with the system
    turn and the new user turn only (the latter twice), whatever the log
    held before. *)
Theorem reset_hides_the_past_from_the_backend (ai ai' : AiBinding)
        (conn conn' : Connection) (message message' : Inbound)
        (userText : jsstring) (w : World) :
  reset_command message ->
  chat_command message' userText ->
  let w1 := onMessage ai conn message w in
  ai_calls (effects_of w1 (onMessage ai' conn' message' w1))
  = [[system_turn; user_turn userText; user_turn userText]].
Proof.
  intros Hr Hc w1; subst w1.
  rewrite (onMessage_reset ai conn w Hr).
  rewrite (chat_calls_backend_once ai' conn' (after_reset conn w) Hc).
  now rewrite chat_turns_end.
Qed.

(** X13.  Whatever the backend does (stream, string, other value, failure
    at any point), a chat command appends exactly two rows, the user row
    and then one assistant row, to the Store and to the in-memory log, and
    stamps them with successive readings of the clock. *)
Theorem chat_appends_one_exchange (ai : AiBinding) (conn : Connection)
        (message : Inbound) (userText : jsstring) (w : World) :
  chat_command message userText ->
  let w' := onMessage ai conn message w in
  exists reply,
    table w'
    = table w ++ [{| role := user; content := userText;
                     ts := Date_now (tick w) |};
                  {| role := assistant; content := reply;
                     ts := Date_now (S (S (tick w))) |}]
    /\ messages (state w')
       = messages (state w)
           ++ [{| role := user; content := userText;
                  ts := Date_now (tick w) |};
               {| role := assistant; content := reply;
                  ts := Date_now (S (S (tick w))) |}]
    /\ tick w' = 4 + tick w.
Proof.
  intros Hc w'; subst w'.
  rewrite (onMessage_chat ai conn w Hc).
  exists (reply_text (backend_reply ai userText w)).
  rewrite after_chat_table, after_chat_messages.
  repeat split.
  unfold after_chat; cbv zeta; now destruct (plain _).
Qed.

End AgentInvariants.

(* ===================================================================== *)
(** * Properties of the browser side *)
(* ===================================================================== *)

Lemma jseqb_refl (a : jsstring) : jseqb a a = true.
Proof. induction a as [|x a IH]; simpl; [easy|]; now rewrite N.eqb_refl. Qed.

Lemma replace_char_clean (c d : codeunit) (by_ s : jsstring) :
  ~ In d by_ -> (d = c \/ ~ In d s) -> ~ In d (replace_char c by_ s).
Proof.
  intros Hby Hs Hin; unfold replace_char in Hin.
  apply in_flat_map in Hin as (x & Hx & Hin).
  destruct (N.eqb x c) eqn:E; [auto|].
  destruct Hin as [-> | []]; apply N.eqb_neq in E.
  destruct Hs as [-> | Hs]; auto.
Qed.

Lemma replace_char_cons (c : codeunit) (by_ : jsstring) (x : codeunit)
      (s : jsstring) :
  replace_char c by_ (x :: s)
  = (if N.eqb x c then by_ else [x]) ++ replace_char c by_ s.
Proof. reflexivity. Qed.

Lemma replace_char_app (c : codeunit) (by_ a b : jsstring) :
  replace_char c by_ (a ++ b) = replace_char c by_ a ++ replace_char c by_ b.
Proof. unfold replace_char; apply flat_map_app. Qed.

(** X14.  [escapeHtml] replaces each character on its own, as if in one
    pass (the ampersands of the entities it writes are not escaped again),
    and its result holds no angle bracket. *)
Theorem escapeHtml_is_one_pass (s : jsstring) :
  escapeHtml s = flat_map entity s
  /\ ~ In 60%N (escapeHtml s)
  /\ ~ In 62%N (escapeHtml s).
Proof.
  split; [|split].
  - induction s as [|c s IH]; [reflexivity|].
    unfold escapeHtml in *.
    rewrite replace_char_cons, !replace_char_app, IH.
    cbn [flat_map]; f_equal.
    unfold entity.
    destruct (N.eqb c 38) eqn:E1; [reflexivity|].
    rewrite replace_char_cons.
    destruct (N.eqb c 60) eqn:E2; [reflexivity|].
    cbn [replace_char flat_map app].
    destruct (N.eqb c 62); reflexivity.
  - unfold escapeHtml.
    apply replace_char_clean; [vm_compute; intuition discriminate|].
    right; apply replace_char_clean; [vm_compute; intuition discriminate|].
    now left.
  - unfold escapeHtml.
    apply replace_char_clean; [vm_compute; intuition discriminate|].
    now left.
Qed.

Section ClientProperties.

Context `{Browser}.

Lemma getOrCreateSid_stored (p : Page) (c : codeunit) (sid : jsstring) :
  getItem (js "sessionId") (localStorage p) = Some (c :: sid) ->
  getOrCreateSid p = (c :: sid, p).
Proof. intros E; unfold getOrCreateSid; cbv zeta; now rewrite E. Qed.

Lemma getOrCreateSid_stores (p : Page) :
  crypto_randomUUID (uuids p) <> [] ->
  getItem (js "sessionId") (localStorage (snd (getOrCreateSid p)))
  = Some (fst (getOrCreateSid p))
  /\ fst (getOrCreateSid p) <> [].
Proof.
  intros Hu; unfold getOrCreateSid; cbv zeta.
  destruct (getItem (js "sessionId") (localStorage p)) as [[|c sid]|] eqn:E;
    cbn [fst snd randomUUID localStorage];
    try (split; [unfold getItem, setItem; now rewrite jseqb_refl | exact Hu]).
  split; [exact E | discriminate].
Qed.

(** X15.  The session id is stable: once [connect] has run, connecting
    again opens the same URL; it draws no new UUID and leaves
    [localStorage] as it is.  The id in the URL is the one kept under
    [sessionId], and keys other than [sessionId] are never written. *)
Theorem reconnecting_reaches_the_same_session (https : bool)
        (host : jsstring) (p : Page) :
  crypto_randomUUID (uuids p) <> [] ->
  let (url1, p1) := connect https host p in
  let (url2, p2) := connect https host p1 in
  url2 = url1
  /\ uuids p2 = uuids p1
  /\ localStorage p2 = localStorage p1
  /\ (exists sid, getItem (js "sessionId") (localStorage p1) = Some sid
                  /\ url1 = (if https then js "wss" else js "ws")
                              ++ js "://" ++ host ++ js "/agents/ai-agent/" ++ sid)
  /\ forall k, jseqb k (js "sessionId") = false ->
               getItem k (localStorage p1) = getItem k (localStorage p).
Proof.
  intros Hu; unfold connect.
  destruct (getOrCreateSid_stores p Hu) as [Hs Hne].
  destruct (getOrCreateSid p) as [sid p1] eqn:E1; cbn [fst snd] in Hs, Hne.
  cbn [localStorage].
  destruct sid as [|c sid]; [easy|].
  rewrite (getOrCreateSid_stored
             {| bubbles := bubbles p1; pending := pending p1;
                hydrated := hydrated p1; ws := Some [];
                localStorage := localStorage p1; uuids := uuids p1 |}
             (c := c) (sid := sid)) by exact Hs.
  repeat split.
  - exists (c :: sid); split; [exact Hs | reflexivity].
  - intros k Hk; unfold getOrCreateSid in E1; cbv zeta in E1.
    destruct (getItem (js "sessionId") (localStorage p)) as [[|c' sid']|];
      cbn [randomUUID] in E1; inversion E1; subst; cbn [localStorage];
      try reflexivity; unfold getItem, setItem; now rewrite Hk.
Qed.

Lemma transcript_set_pending (b : bool) (p : Page) :
  transcript (set_pending b p) = transcript p.
Proof. reflexivity. Qed.

(** What one [delta] does to the transcript. *)
Lemma onDelta_transcript (t : jsstring) (p : Page) :
  transcript (onDelta t p)
  = match rev (transcript p) with
    | (assistant, c) :: before => rev before ++ [(assistant, c ++ t)]
    | _ => transcript p ++ [(assistant, t)]
    end.
Proof.
  unfold onDelta, transcript; cbv zeta; cbn [bubbles set_pending].
  rewrite <- map_rev.
  destruct (rev (bubbles p)) as [|last before] eqn:E; cbn [map].
  - cbn; now rewrite map_app.
  - destruct (bubble_role last) eqn:Er; cbn; rewrite ?map_app; cbn;
      try reflexivity.
    now rewrite <- map_rev.
Qed.

Lemma onDelta_pending (t : jsstring) (p : Page) : pending (onDelta t p) = true.
Proof.
  unfold onDelta; cbv zeta; cbn [bubbles set_pending].
  destruct (rev (bubbles p)) as [|last before]; [reflexivity|].
  now destruct (bubble_role last).
Qed.

Lemma deliver_app (a b : list Event) (p : Page) :
  deliver (a ++ b) p = deliver b (deliver a p).
Proof. unfold deliver; apply fold_left_app. Qed.

(** Deltas after an assistant bubble extend that bubble. *)
Lemma deltas_extend (ds : list jsstring) (p : Page)
      (init : list (Role * jsstring)) (c : jsstring) :
  transcript p = init ++ [(assistant, c)] ->
  transcript (deliver (map Delta ds) p) = init ++ [(assistant, c ++ concat ds)].
Proof.
  revert p c; induction ds as [|d ds IH]; intros p c Hp.
  - cbn; now rewrite app_nil_r.
  - cbn [map deliver fold_left ws_onmessage concat].
    fold (deliver (map Delta ds) (onDelta d p)).
    rewrite (IH (onDelta d p) (c ++ d)); [now rewrite app_assoc|].
    rewrite onDelta_transcript, Hp, rev_app_distr; cbn [rev app].
    now rewrite rev_involutive.
Qed.

Lemma deltas_pending (ds : list jsstring) (p : Page) :
  ds <> [] -> pending (deliver (map Delta ds) p) = true.
Proof.
  destruct ds as [|d ds] using rev_ind; [easy|]; intros _.
  rewrite map_app, deliver_app; cbn; apply onDelta_pending.
Qed.

(** X16.  A run of [delta] events, however long, makes one assistant
    bubble: it is appended after a user bubble (or on an empty page) with
    the concatenation of the texts, or, when the last bubble is already an
    assistant's, the texts are appended to that bubble; the [done] that
    follows clears [pending]. *)
Theorem deltas_make_one_bubble (ds : list jsstring) (p : Page) :
  ds <> [] ->
  let p' := deliver (map Delta ds ++ [Done]) p in
  pending (deliver (map Delta ds) p) = true
  /\ pending p' = false
  /\ transcript p'
     = match rev (transcript p) with
       | (assistant, c) :: before => rev before ++ [(assistant, c ++ concat ds)]
       | _ => transcript p ++ [(assistant, concat ds)]
       end.
Proof.
  intros Hne p'; subst p'; split; [now apply deltas_pending|].
  rewrite deliver_app; split; [reflexivity|].
  change (transcript (deliver [Done] (deliver (map Delta ds) p)))
    with (transcript (deliver (map Delta ds) p)).
  destruct ds as [|d ds]; [easy|].
  cbn [map deliver fold_left ws_onmessage concat].
  fold (deliver (map Delta ds) (onDelta d p)).
  pose proof (onDelta_transcript d p) as Hd.
  destruct (rev (transcript p)) as [|[r c] before] eqn:E.
  - rewrite (deltas_extend ds (onDelta d p) (transcript p) d); auto.
  - destruct r;
      try (rewrite (deltas_extend ds (onDelta d p) (transcript p) d); now auto).
    rewrite (deltas_extend ds (onDelta d p) (rev before) (c ++ d)); auto.
    now rewrite app_assoc.
Qed.

Lemma restore_transcript (rows : list Msg) (p : Page) :
  map (fun b => (bubble_role b, bubble_content b)) (fst (restore rows p))
  = map (fun m => (role m, content m)) rows.
Proof.
  revert p; induction rows as [|m rows IH]; intros p; [reflexivity|].
  cbn [restore]; destruct (randomUUID p) as [u p1].
  specialize (IH p1); destruct (restore rows p1) as [l p2].
  cbn in *; now rewrite IH.
Qed.

Lemma restore_bubbles (rows : list Msg) (p : Page) :
  bubbles (snd (restore rows p)) = bubbles p.
Proof.
  revert p; induction rows as [|m rows IH]; intros p; [reflexivity|].
  cbn [restore]; destruct (randomUUID p) as [u p1] eqn:Eu.
  injection Eu as _ <-.
  match goal with
  | |- context [restore rows ?q] =>
      specialize (IH q); destruct (restore rows q) as [l p2]
  end.
  exact IH.
Qed.

(** What a [ready] does to a page not yet hydrated. *)
Lemma onReady_transcript (s : State) (p : Page) :
  hydrated p = false ->
  hydrated (onReady s p) = true
  /\ transcript (onReady s p)
     = match shown (messages s) with
       | [] => transcript p
       | _ :: _ => shown (messages s)
       end.
Proof.
  intros Hh; unfold onReady; rewrite Hh.
  pose proof (restore_transcript (filter isUserOrAssistant (messages s)) p) as Hr.
  pose proof (restore_bubbles (filter isUserOrAssistant (messages s)) p) as Hb.
  destruct (restore (filter isUserOrAssistant (messages s)) p) as [restored p1].
  cbn [fst snd] in Hr, Hb; unfold shown; rewrite <- Hr.
  destruct restored as [|b l]; split; try reflexivity.
  unfold transcript; cbn; now rewrite Hb.
Qed.

End ClientProperties.

(* ===================================================================== *)
(** * The page and the agent together *)
(* ===================================================================== *)

Section EndToEnd.

Context `{Platform} `{Browser}.

(** The events a chat command sends to its connection. *)
Lemma chat_events_to (ai : AiBinding) (conn : Connection)
      (message : Inbound) (userText : jsstring) (w : World) :
  chat_command message userText ->
  events_to conn (effects_of w (onMessage ai conn message w))
  = map Delta (reply_deltas (backend_reply ai userText w)) ++ [Done].
Proof.
  intros Hc; rewrite (chat_effects_of ai conn w Hc).
  unfold chat_effects; cbv zeta.
  rewrite events_to_app.
  destruct (backend_reply ai userText w) as [[s | t |] |];
    cbn [plain reply_deltas map];
    rewrite ?events_to_app, ?events_to_deltas;
    cbn; now rewrite Nat.eqb_refl.
Qed.

(** What the client sends for a chat is a chat command for the agent. *)
Lemma sent_chat_is_a_command (t : jsstring) :
  JSON_parse (JSON_stringify [(js "type", js "chat"); (js "text", t)])
  = Some (object_of [(js "type", js "chat"); (js "text", t)]) ->
  trim t <> [] ->
  chat_command
    (Text (JSON_stringify [(js "type", js "chat"); (js "text", t)])) (trim t).
Proof.
  intros Hp Hne; eexists _, _, t.
  split; [reflexivity|]; split; [exact Hp|].
  repeat split; auto.
Qed.

Lemma sent_reset_is_a_command :
  JSON_parse (JSON_stringify [(js "type", js "reset")])
  = Some (object_of [(js "type", js "reset")]) ->
  reset_command (Text (JSON_stringify [(js "type", js "reset")])).
Proof. intros Hp; eexists _, _; split; [reflexivity|]; split; [exact Hp|]; reflexivity. Qed.

(** What submitting a non-blank input does to the page. *)
Lemma onSubmit_page (v : jsstring) (p : Page) (sent : list jsstring) :
  trim v <> [] ->
  ws p = Some sent ->
  transcript (onSubmit v p) = transcript p ++ [(user, trim v)]
  /\ last_sent (onSubmit v p)
     = Some (JSON_stringify [(js "type", js "chat"); (js "text", trim v)]).
Proof.
  intros Hne Hws; unfold onSubmit; cbv zeta.
  destruct (trim v) as [|c t] eqn:E; [easy|]; cbn [isEmpty].
  unfold App_send, chat, ws_send, randomUUID, last_sent; cbn; rewrite Hws.
  unfold transcript; cbn; rewrite map_app, rev_app_distr; now cbn.
Qed.

(** A reply made of deltas, received after the user's bubble. *)
Lemma reply_after_user_bubble (ds : list jsstring) (p : Page)
      (init : list (Role * jsstring)) (t : jsstring) :
  transcript p = init ++ [(user, t)] ->
  pending p = true ->
  transcript (deliver (map Delta ds ++ [Done]) p)
  = transcript p
      ++ match ds with [] => [] | _ :: _ => [(assistant, concat ds)] end
  /\ pending (deliver (map Delta ds ++ [Done]) p) = false.
Proof.
  intros Hp Hpe; rewrite deliver_app; split; [|reflexivity].
  change (transcript (deliver [Done] (deliver (map Delta ds) p)))
    with (transcript (deliver (map Delta ds) p)).
  destruct ds as [|d ds]; [cbn; now rewrite app_nil_r|].
  cbn [map deliver fold_left ws_onmessage concat].
  fold (deliver (map Delta ds) (onDelta d p)).
  rewrite (deltas_extend ds (onDelta d p) (transcript p) d); [reflexivity|].
  rewrite onDelta_transcript, Hp, rev_app_distr; reflexivity.
Qed.

Lemma shown_app (a b : list Msg) : shown (a ++ b) = shown a ++ shown b.
Proof. unfold shown; now rewrite filter_app, map_app. Qed.

Lemma shown_exchange (t : jsstring) (r : AiResult) (w : World) :
  shown [new_row user t w; assistant_row r w]
  = [(user, t); (assistant, reply_text r)].
Proof. reflexivity. Qed.

(** X17.  A streamed reply is shown as it is stored: when the page submits
    a non-blank input and the backend streams a reply with some text, the
    page ends with the user bubble and one assistant bubble holding the
    whole reply, [pending] cleared, and the agent has stored the same two
    messages, with the same texts, after the ones it had. *)
Theorem streamed_reply_is_shown_as_stored (ai : AiBinding)
        (conn : Connection) (v : jsstring) (p : Page) (sent : list jsstring)
        (w : World) (s : ByteStream) :
  let wire := JSON_stringify [(js "type", js "chat"); (js "text", trim v)] in
  let reply := concat (stream_fragments (chunks s)) in
  ws p = Some sent ->
  trim v <> [] ->
  JSON_parse wire = Some (object_of [(js "type", js "chat"); (js "text", trim v)]) ->
  backend_reply ai (trim v) w = Resolves (OutStream s) ->
  ending s = Closed ->
  reply <> [] ->
  let p1 := onSubmit v p in
  let w' := onMessage ai conn (Text wire) w in
  let p2 := deliver (events_to conn (effects_of w w')) p1 in
  last_sent p1 = Some wire
  /\ transcript p2 = transcript p ++ [(user, trim v); (assistant, reply)]
  /\ pending p2 = false
  /\ shown (table w') = shown (table w) ++ [(user, trim v); (assistant, reply)].
Proof.
  intros wire reply Hws Hne Hp Hr He Hreply p1 w' p2; subst p1 w' p2 wire.
  pose proof (@sent_chat_is_a_command (trim v) Hp) as Hc.
  rewrite trim_idempotent in Hc; specialize (Hc Hne).
  destruct (@onSubmit_page v p sent Hne Hws) as [Ht Hl].
  split; [exact Hl|].
  rewrite (chat_events_to ai conn w Hc), (onMessage_chat ai conn w Hc).
  rewrite after_chat_table, shown_app, shown_exchange, Hr.
  cbn [reply_deltas reply_text]; rewrite He; cbn [errored].
  rewrite stream_pieces_fragments, concat_filter_nonempty.
  fold reply.
  assert (Hpe : pending (onSubmit v p) = true).
  { unfold onSubmit; cbv zeta.
    destruct (trim v); [easy|]; cbn [isEmpty].
    unfold App_send, chat, ws_send; cbn; now rewrite Hws. }
  destruct (@reply_after_user_bubble
              (filter nonempty (stream_fragments (chunks s)))
              (onSubmit v p) (transcript p) (trim v) Ht Hpe) as [Htr Hpd].
  rewrite Htr, Hpd, Ht, concat_filter_nonempty; fold reply.
  repeat split.
  destruct (filter nonempty (stream_fragments (chunks s))) eqn:Ef.
  - exfalso; apply Hreply; unfold reply.
    now rewrite <- concat_filter_nonempty, Ef.
  - now rewrite <- app_assoc.
Qed.

(** X18.  A reply that does not come as a stream is stored but not shown:
    when the backend returns a string or another value, or the call
    fails, the page receives [done] only; it keeps the user bubble, clears
    [pending] and shows no assistant bubble, while the agent has stored an
    assistant message. *)
Theorem plain_reply_is_stored_but_not_shown (ai : AiBinding)
        (conn : Connection) (v : jsstring) (p : Page) (sent : list jsstring)
        (w : World) :
  let wire := JSON_stringify [(js "type", js "chat"); (js "text", trim v)] in
  ws p = Some sent ->
  trim v <> [] ->
  JSON_parse wire = Some (object_of [(js "type", js "chat"); (js "text", trim v)]) ->
  (forall s, backend_reply ai (trim v) w <> Resolves (OutStream s)) ->
  let p1 := onSubmit v p in
  let w' := onMessage ai conn (Text wire) w in
  let p2 := deliver (events_to conn (effects_of w w')) p1 in
  transcript p2 = transcript p ++ [(user, trim v)]
  /\ pending p2 = false
  /\ exists reply,
       shown (table w') = shown (table w) ++ [(user, trim v); (assistant, reply)]
       /\ reply = match backend_reply ai (trim v) w with
                  | Resolves (OutString t) => t
                  | Resolves _ => js "[no response]"
                  | Rejects => js "_(stream error)_"
                  end.
Proof.
  intros wire Hws Hne Hp Hns p1 w' p2; subst p1 w' p2 wire.
  pose proof (@sent_chat_is_a_command (trim v) Hp) as Hc.
  rewrite trim_idempotent in Hc; specialize (Hc Hne).
  destruct (@onSubmit_page v p sent Hne Hws) as [Ht _].
  rewrite (chat_events_to ai conn w Hc), (onMessage_chat ai conn w Hc).
  rewrite after_chat_table, shown_app, shown_exchange.
  destruct (backend_reply ai (trim v) w) as [[s | t |] |] eqn:Er;
    [now destruct (Hns s) | | |];
    cbn [reply_deltas map app deliver fold_left ws_onmessage];
    (split; [exact Ht|]); (split; [reflexivity|]);
    eexists; split; reflexivity.
Qed.

Lemma connect_events_to (conn : Connection) (w : World) :
  events_to conn (effects_of w (onConnect conn w))
  = [Ready (state (onConnect conn w))].
Proof.
  rewrite onConnect_effects, onConnect_state.
  destruct (messages (state w)); cbn; now rewrite Nat.eqb_refl.
Qed.

(** X19.  Loading the page shows what the agent keeps: on connection the
    agent's log is the Store's rows by timestamp when it was empty (and is
    left alone otherwise), and a page not yet hydrated that receives the
    [ready] shows exactly the user and assistant messages of that log, in
    order (keeping its bubbles when there is none); it is then hydrated and
    ignores any further [ready]. *)
Theorem loading_shows_the_stored_conversation (conn : Connection)
        (w : World) (p : Page) :
  hydrated p = false ->
  let w' := onConnect conn w in
  let p' := deliver (events_to conn (effects_of w w')) p in
  messages (state w')
  = match messages (state w) with
    | [] => select_ordered (table w)
    | _ :: _ => messages (state w)
    end
  /\ transcript p'
     = match shown (messages (state w')) with
       | [] => transcript p
       | _ :: _ => shown (messages (state w'))
       end
  /\ hydrated p' = true
  /\ forall s, ws_onmessage (Ready s) p' = p'.
Proof.
  intros Hh w' p'; subst w' p'.
  rewrite connect_events_to; cbn [deliver fold_left ws_onmessage].
  destruct (@onReady_transcript _ (state (onConnect conn w)) p Hh) as [Hy Ht].
  split.
  { rewrite onConnect_state.
    destruct (messages (state w)) eqn:E; [reflexivity | exact E]. }
  split; [exact Ht|]; split; [exact Hy|].
  intros s; cbn [ws_onmessage]; unfold onReady at 1; now rewrite Hy.
Qed.

(** X20.  Resetting from the page empties both sides: [resetChat] sends a
    reset command and clears the bubbles at once; the agent deletes its
    rows and its log and answers [cleared]; on receiving it the page is
    empty and no longer hydrated, so the next [ready] is taken again. *)
Theorem reset_empties_page_and_agent (ai : AiBinding) (conn : Connection)
        (p : Page) (sent : list jsstring) (w : World) :
  let wire := JSON_stringify [(js "type", js "reset")] in
  ws p = Some sent ->
  JSON_parse wire = Some (object_of [(js "type", js "reset")]) ->
  let p1 := resetChat p in
  let w' := onMessage ai conn (Text wire) w in
  let p2 := deliver (events_to conn (effects_of w w')) p1 in
  last_sent p1 = Some wire
  /\ transcript p1 = []
  /\ transcript p2 = []
  /\ hydrated p2 = false
  /\ table w' = []
  /\ messages (state w') = [].
Proof.
  intros wire Hws Hp p1 w' p2; subst p1 w' p2 wire.
  pose proof (sent_reset_is_a_command Hp) as Hr.
  rewrite (onMessage_reset ai conn w Hr).
  rewrite (effects_of_app w (after_reset conn w)
             [SqlDelete; SetState (state (after_reset conn w)); Send conn Cleared])
    by reflexivity.
  cbn [events_to flat_map app]; rewrite Nat.eqb_refl.
  cbn [deliver fold_left ws_onmessage app].
  repeat split.
  unfold resetChat, reset, ws_send, last_sent; rewrite Hws; cbn.
  now rewrite rev_app_distr.
Qed.

(** X21.  A model chosen on the page reaches the backend: [setModel]
    sends a model command, which the agent answers with no event; with a
    non-empty name the agent's model becomes that name and the next chat
    command calls the backend with it, and with the empty name the agent
    ignores the command altogether. *)
Theorem page_model_choice_reaches_the_backend (ai ai' : AiBinding)
        (conn conn' : Connection) (m : jsstring) (p : Page)
        (sent : list jsstring) (message' : Inbound) (userText : jsstring)
        (w : World) :
  let wire := JSON_stringify [(js "type", js "model"); (js "model", m)] in
  ws p = Some sent ->
  JSON_parse wire = Some (object_of [(js "type", js "model"); (js "model", m)]) ->
  chat_command message' userText ->
  let p1 := setModel m p in
  let w1 := onMessage ai conn (Text wire) w in
  let w2 := onMessage ai' conn' message' w1 in
  last_sent p1 = Some wire
  /\ transcript p1 = transcript p
  /\ events (effects_of w w1) = []
  /\ match m with
     | [] => w1 = w
     | _ :: _ =>
         model (state w1) = JStr m
         /\ exists turns, In (AiRun (JStr m) turns) (effects_of w1 w2)
     end.
Proof.
  intros wire Hws Hp Hc p1 w1 w2; subst p1 w1 w2 wire.
  split.
  { unfold setModel, ws_send, last_sent; rewrite Hws; cbn.
    now rewrite rev_app_distr. }
  split; [unfold setModel, ws_send; now rewrite Hws|].
  destruct m as [|c m].
  - match type of Hp with
    | JSON_parse ?x = _ => assert (E : onMessage ai conn (Text x) w = w)
    end.
    { unfold onMessage; rewrite Hp; reflexivity. }
    rewrite E; split; [|reflexivity].
    rewrite (effects_of_app w w []); [reflexivity | now rewrite app_nil_r].
  - match type of Hp with
    | JSON_parse ?x = _ =>
        assert (Hm : model_command (Text x) (JStr (c :: m)))
    end.
    { eexists _, _; split; [reflexivity|]; split; [exact Hp|].
      repeat split. }
    rewrite (onMessage_model ai conn w Hm).
    split.
    { rewrite (effects_of_app w (after_model (JStr (c :: m)) w)
                 [SetState (state (after_model (JStr (c :: m)) w))]);
        reflexivity. }
    split; [reflexivity|].
    rewrite (chat_effects_of ai' conn' (after_model (JStr (c :: m)) w) Hc).
    exists (chat_turns userText (after_model (JStr (c :: m)) w)).
    unfold chat_effects; cbv zeta; right; right; left; reflexivity.
Qed.

End EndToEnd.

(* ===================================================================== *)
(** * The further properties at work *)
(* ===================================================================== *)

Lemma model_message_command :
  @model_command std model_message (JStr (js "@cf/x")).
Proof.
  unfold model_command, model_message.
  eexists _, _.
  split; [reflexivity|].
  split; [vm_compute; reflexivity|].
  split; [vm_compute; reflexivity|].
  split; vm_compute; reflexivity.
Defined.

Section MoreScenarios.

#[local] Existing Instance std.
#[local] Existing Instance std_browser.

Lemma model_command_selects_the_backend_model_witness :
  model_command model_message (JStr (js "@cf/x"))
  /\ chat_command chat_hello (js "hello")
  /\ let w1 := onMessage failing 1 model_message session1 in
     let w2 := onMessage (answering (js "Hi")) 2 chat_hello w1 in
     events (effects_of session1 w1) = []
     /\ table w1 = table session1
     /\ state w1 = {| model := JStr (js "@cf/x");
                      messages := messages (state session1);
                      createdAt := createdAt (state session1);
                      expiresAt := (Date_now (tick session1) + 86400000)%Z |}
     /\ exists turns, In (AiRun (JStr (js "@cf/x")) turns) (effects_of w1 w2).
Proof.
  split; [exact model_message_command|].
  split; [exact chat_hello_command|].
  exact (model_command_selects_the_backend_model
           failing (answering (js "Hi")) 1 2 session1
           model_message_command chat_hello_command).
Defined.

Lemma model_command_without_model_is_ignored_witness :
  let data := object_of [(js "type", js "model"); (js "model", [])] in
  JSON_parse model_without_value = Some data
  /\ prop (js "type") data = Some (JStr (js "model"))
  /\ truthy (prop (js "model") data) = false
  /\ onMessage failing 1 (Text model_without_value) session1 = session1.
Proof.
  intros data.
  assert (H1 : JSON_parse model_without_value = Some data)
    by (vm_compute; reflexivity).
  assert (H2 : prop (js "type") data = Some (JStr (js "model")))
    by (vm_compute; reflexivity).
  assert (H3 : truthy (prop (js "model") data) = false)
    by (vm_compute; reflexivity).
  split; [exact H1|]; split; [exact H2|]; split; [exact H3|].
  exact (model_command_without_model_is_ignored failing 1 model_without_value
           session1 H1 H2 H3).
Defined.

Lemma blank_chat_is_ignored_witness :
  let data := object_of [(js "type", js "chat"); (js "text", [32; 32; 9; 32]%N)] in
  JSON_parse blank_chat = Some data
  /\ prop (js "type") data = Some (JStr (js "chat"))
  /\ (truthy (prop (js "text") data) = false
      \/ exists s, prop (js "text") data = Some (JStr s) /\ blank s = true)
  /\ onMessage (answering (js "Hi")) 1 (Text blank_chat) session1 = session1.
Proof.
  intros data.
  assert (H1 : JSON_parse blank_chat = Some data)
    by (vm_compute; reflexivity).
  assert (H2 : prop (js "type") data = Some (JStr (js "chat")))
    by (vm_compute; reflexivity).
  assert (H3 : truthy (prop (js "text") data) = false
               \/ exists s, prop (js "text") data = Some (JStr s)
                            /\ blank s = true).
  { right; exists [32; 32; 9; 32]%N; split; vm_compute; reflexivity. }
  split; [exact H1|]; split; [exact H2|]; split; [exact H3|].
  exact (blank_chat_is_ignored (answering (js "Hi")) 1 blank_chat session1
           H1 H2 H3).
Defined.

Lemma non_string_chat_text_throws_witness :
  let data := JObj [(js "type", JStr (js "chat")); (js "text", JNum 5 0)] in
  let w' := onMessage (answering (js "Hi")) 1 (Text numeric_chat) session1 in
  JSON_parse numeric_chat = Some data
  /\ prop (js "type") data = Some (JStr (js "chat"))
  /\ prop (js "text") data = Some (JNum 5 0)
  /\ truthy (Some (JNum 5 0)) = true
  /\ (forall s, JNum 5 0 <> JStr s)
  /\ effects_of session1 w' = [Uncaught "TypeError"]
  /\ state w' = state session1
  /\ table w' = table session1
  /\ tick w' = tick session1.
Proof.
  intros data w'.
  assert (H1 : JSON_parse numeric_chat = Some data)
    by (vm_compute; reflexivity).
  assert (H2 : prop (js "type") data = Some (JStr (js "chat")))
    by (vm_compute; reflexivity).
  assert (H3 : prop (js "text") data = Some (JNum 5 0))
    by (vm_compute; reflexivity).
  assert (H4 : truthy (Some (JNum 5 0)) = true)
    by (vm_compute; reflexivity).
  assert (H5 : forall s, JNum 5 0 <> JStr s) by (intros s; discriminate).
  split; [exact H1|]; split; [exact H2|]; split; [exact H3|].
  split; [exact H4|]; split; [exact H5|].
  exact (non_string_chat_text_throws (answering (js "Hi")) 1 numeric_chat
           session1 H1 H2 H3 H4 H5).
Defined.

Lemma backend_turns_are_bounded_witness :
  chat_command chat_hello (js "hello")
  /\ exists rest,
       ai_calls (effects_of rehydrated
                   (onMessage failing 1 chat_hello rehydrated))
       = [system_turn :: rest]
       /\ length rest <= 41
       /\ Forall (fun t => ai_role t = user \/ ai_role t = assistant) rest.
Proof.
  split; [exact chat_hello_command|].
  exact (backend_turns_are_bounded failing 1 rehydrated chat_hello_command).
Defined.

Lemma stream_without_blank_line_relays_nothing_witness :
  let w' := onMessage (streaming crlf_stream) 1 chat_hello session1 in
  let reply := {| role := assistant;
                  content := match ending crlf_stream with
                             | Closed => []
                             | Errored => js "_(stream error)_"
                             end;
                  ts := Date_now (S (S (tick session1))) |} in
  chat_command chat_hello (js "hello")
  /\ backend_reply (streaming crlf_stream) (js "hello") session1
     = Resolves (OutStream crlf_stream)
  /\ indexOf LFLF (decoded (concat (chunks crlf_stream))) = None
  /\ events (effects_of session1 w') = [Done]
  /\ table w' = table session1 ++ [new_row user (js "hello") session1; reply].
Proof.
  intros w' reply.
  assert (H2 : backend_reply (streaming crlf_stream) (js "hello") session1
               = Resolves (OutStream crlf_stream)) by reflexivity.
  assert (H3 : indexOf LFLF (decoded (concat (chunks crlf_stream))) = None)
    by (vm_compute; reflexivity).
  split; [exact chat_hello_command|]; split; [exact H2|]; split; [exact H3|].
  exact (stream_without_blank_line_relays_nothing
           (streaming crlf_stream) 1 session1 chat_hello_command H2 H3).
Defined.

Lemma chunking_does_not_matter_witness :
  chat_command chat_hello (js "hello")
  /\ backend_reply (streaming hi_there) (js "hello") session1
     = Resolves (OutStream hi_there)
  /\ backend_reply (streaming hi_there_bytewise) (js "hello") session1
     = Resolves (OutStream hi_there_bytewise)
  /\ concat (chunks hi_there) = concat (chunks hi_there_bytewise)
  /\ ending hi_there = ending hi_there_bytewise
  /\ onMessage (streaming hi_there) 1 chat_hello session1
     = onMessage (streaming hi_there_bytewise) 1 chat_hello session1.
Proof.
  assert (H2 : backend_reply (streaming hi_there) (js "hello") session1
               = Resolves (OutStream hi_there)) by reflexivity.
  assert (H3 : backend_reply (streaming hi_there_bytewise) (js "hello") session1
               = Resolves (OutStream hi_there_bytewise)) by reflexivity.
  assert (H4 : concat (chunks hi_there) = concat (chunks hi_there_bytewise))
    by (vm_compute; reflexivity).
  assert (H5 : ending hi_there = ending hi_there_bytewise) by reflexivity.
  split; [exact chat_hello_command|]; split; [exact H2|]; split; [exact H3|].
  split; [exact H4|]; split; [exact H5|].
  exact (chunking_does_not_matter (streaming hi_there)
           (streaming hi_there_bytewise) 1 session1
           chat_hello_command H2 H3 H4 H5).
Defined.

Lemma expiry_follows_the_clock_witness :
  expiry_fresh session1 /\ expiry_fresh (run session1 two_chats).
Proof.
  assert (H1 : expiry_fresh session1).
  { split; [vm_compute; lia | vm_compute; reflexivity]. }
  split; [exact H1|].
  exact (expiry_follows_the_clock two_chats H1).
Defined.

Lemma reset_hides_the_past_from_the_backend_witness :
  reset_command reset_message
  /\ chat_command chat_hello (js "hello")
  /\ let w1 := onMessage failing 1 reset_message rehydrated in
     ai_calls (effects_of w1 (onMessage (streaming hi_there) 1 chat_hello w1))
     = [[system_turn; user_turn (js "hello"); user_turn (js "hello")]].
Proof.
  split; [exact reset_message_command|].
  split; [exact chat_hello_command|].
  exact (reset_hides_the_past_from_the_backend
           failing (streaming hi_there) 1 1 rehydrated
           reset_message_command chat_hello_command).
Defined.

Lemma chat_appends_one_exchange_witness :
  chat_command chat_hello (js "hello")
  /\ let w' := onMessage (streaming hi_then_error) 1 chat_hello rehydrated in
     exists reply,
       table w'
       = table rehydrated
           ++ [{| role := user; content := js "hello";
                  ts := Date_now (tick rehydrated) |};
               {| role := assistant; content := reply;
                  ts := Date_now (S (S (tick rehydrated))) |}]
       /\ messages (state w')
          = messages (state rehydrated)
              ++ [{| role := user; content := js "hello";
                     ts := Date_now (tick rehydrated) |};
                  {| role := assistant; content := reply;
                     ts := Date_now (S (S (tick rehydrated))) |}]
       /\ tick w' = 4 + tick rehydrated.
Proof.
  split; [exact chat_hello_command|].
  exact (chat_appends_one_exchange (streaming hi_then_error) 1 rehydrated
           chat_hello_command).
Defined.

Lemma reconnecting_reaches_the_same_session_witness :
  crypto_randomUUID (uuids fresh_page) <> []
  /\ let (url1, p1) := connect true (js "chat.example") fresh_page in
     let (url2, p2) := connect true (js "chat.example") p1 in
     url2 = url1
     /\ uuids p2 = uuids p1
     /\ localStorage p2 = localStorage p1
     /\ (exists sid, getItem (js "sessionId") (localStorage p1) = Some sid
                     /\ url1 = (if true then js "wss" else js "ws")
                                 ++ js "://" ++ js "chat.example"
                                 ++ js "/agents/ai-agent/" ++ sid)
     /\ forall k, jseqb k (js "sessionId") = false ->
                  getItem k (localStorage p1) = getItem k (localStorage fresh_page).
Proof.
  assert (H1 : crypto_randomUUID (uuids fresh_page) <> [])
    by (vm_compute; discriminate).
  split; [exact H1|].
  exact (reconnecting_reaches_the_same_session true (js "chat.example")
           fresh_page H1).
Defined.

Lemma deltas_make_one_bubble_witness :
  [js "Hi"; js " there"] <> []
  /\ let p' := deliver (map Delta [js "Hi"; js " there"] ++ [Done]) fresh_page in
     pending (deliver (map Delta [js "Hi"; js " there"]) fresh_page) = true
     /\ pending p' = false
     /\ transcript p'
        = match rev (transcript fresh_page) with
          | (assistant, c) :: before =>
              rev before ++ [(assistant, c ++ concat [js "Hi"; js " there"])]
          | _ => transcript fresh_page
                   ++ [(assistant, concat [js "Hi"; js " there"])]
          end.
Proof.
  assert (H1 : [js "Hi"; js " there"] <> []) by discriminate.
  split; [exact H1|].
  exact (deltas_make_one_bubble fresh_page H1).
Defined.

Lemma streamed_reply_is_shown_as_stored_witness :
  let v := js " hello " in
  let wire := JSON_stringify [(js "type", js "chat"); (js "text", trim v)] in
  let reply := concat (stream_fragments (chunks hi_there)) in
  let p1 := onSubmit v fresh_page in
  let w' := onMessage (streaming hi_there) 1 (Text wire) rehydrated in
  let p2 := deliver (events_to 1 (effects_of rehydrated w')) p1 in
  ws fresh_page = Some []
  /\ trim v <> []
  /\ JSON_parse wire
     = Some (object_of [(js "type", js "chat"); (js "text", trim v)])
  /\ backend_reply (streaming hi_there) (trim v) rehydrated
     = Resolves (OutStream hi_there)
  /\ ending hi_there = Closed
  /\ reply <> []
  /\ last_sent p1 = Some wire
  /\ transcript p2
     = transcript fresh_page ++ [(user, trim v); (assistant, reply)]
  /\ pending p2 = false
  /\ shown (table w')
     = shown (table rehydrated) ++ [(user, trim v); (assistant, reply)].
Proof.
  intros v wire reply p1 w' p2.
  assert (H1 : ws fresh_page = Some []) by reflexivity.
  assert (H2 : trim v <> []) by (vm_compute; discriminate).
  assert (H3 : JSON_parse wire
               = Some (object_of [(js "type", js "chat"); (js "text", trim v)]))
    by (vm_compute; reflexivity).
  assert (H4 : backend_reply (streaming hi_there) (trim v) rehydrated
               = Resolves (OutStream hi_there)) by reflexivity.
  assert (H5 : ending hi_there = Closed) by reflexivity.
  assert (H6 : reply <> []) by (vm_compute; discriminate).
  split; [exact H1|]; split; [exact H2|]; split; [exact H3|].
  split; [exact H4|]; split; [exact H5|]; split; [exact H6|].
  exact (streamed_reply_is_shown_as_stored (streaming hi_there) 1 v
           fresh_page rehydrated H1 H2 H3 H4 H5 H6).
Defined.

Lemma plain_reply_is_stored_but_not_shown_witness :
  let v := js " hello " in
  let ai := answering (js "Hi") in
  let wire := JSON_stringify [(js "type", js "chat"); (js "text", trim v)] in
  let p1 := onSubmit v fresh_page in
  let w' := onMessage ai 1 (Text wire) session1 in
  let p2 := deliver (events_to 1 (effects_of session1 w')) p1 in
  ws fresh_page = Some []
  /\ trim v <> []
  /\ JSON_parse wire
     = Some (object_of [(js "type", js "chat"); (js "text", trim v)])
  /\ (forall s, backend_reply ai (trim v) session1 <> Resolves (OutStream s))
  /\ transcript p2 = transcript fresh_page ++ [(user, trim v)]
  /\ pending p2 = false
  /\ exists reply,
       shown (table w')
       = shown (table session1) ++ [(user, trim v); (assistant, reply)]
       /\ reply = match backend_reply ai (trim v) session1 with
                  | Resolves (OutString t) => t
                  | Resolves _ => js "[no response]"
                  | Rejects => js "_(stream error)_"
                  end.
Proof.
  intros v ai wire p1 w' p2.
  assert (H1 : ws fresh_page = Some []) by reflexivity.
  assert (H2 : trim v <> []) by (vm_compute; discriminate).
  assert (H3 : JSON_parse wire
               = Some (object_of [(js "type", js "chat"); (js "text", trim v)]))
    by (vm_compute; reflexivity).
  assert (H4 : forall s,
             backend_reply ai (trim v) session1 <> Resolves (OutStream s))
    by (intros s; discriminate).
  split; [exact H1|]; split; [exact H2|]; split; [exact H3|].
  split; [exact H4|].
  exact (plain_reply_is_stored_but_not_shown ai 1 v fresh_page session1
           H1 H2 H3 H4).
Defined.

Lemma loading_shows_the_stored_conversation_witness :
  let w := new_world stored_rows in
  let w' := onConnect 1 w in
  let p' := deliver (events_to 1 (effects_of w w')) fresh_page in
  hydrated fresh_page = false
  /\ messages (state w')
     = match messages (state w) with
       | [] => select_ordered (table w)
       | _ :: _ => messages (state w)
       end
  /\ transcript p'
     = match shown (messages (state w')) with
       | [] => transcript fresh_page
       | _ :: _ => shown (messages (state w'))
       end
  /\ hydrated p' = true
  /\ forall s, ws_onmessage (Ready s) p' = p'.
Proof.
  intros w w' p'.
  assert (H1 : hydrated fresh_page = false) by reflexivity.
  split; [exact H1|].
  exact (loading_shows_the_stored_conversation 1 w fresh_page H1).
Defined.

Lemma reset_empties_page_and_agent_witness :
  let wire := JSON_stringify [(js "type", js "reset")] in
  let p1 := resetChat fresh_page in
  let w' := onMessage failing 1 (Text wire) rehydrated in
  let p2 := deliver (events_to 1 (effects_of rehydrated w')) p1 in
  ws fresh_page = Some []
  /\ JSON_parse wire = Some (object_of [(js "type", js "reset")])
  /\ last_sent p1 = Some wire
  /\ transcript p1 = []
  /\ transcript p2 = []
  /\ hydrated p2 = false
  /\ table w' = []
  /\ messages (state w') = [].
Proof.
  intros wire p1 w' p2.
  assert (H1 : ws fresh_page = Some []) by reflexivity.
  assert (H2 : JSON_parse wire = Some (object_of [(js "type", js "reset")]))
    by (vm_compute; reflexivity).
  split; [exact H1|]; split; [exact H2|].
  exact (reset_empties_page_and_agent failing 1 fresh_page rehydrated H1 H2).
Defined.

Lemma page_model_choice_reaches_the_backend_witness :
  let m := js "@cf/x" in
  let wire := JSON_stringify [(js "type", js "model"); (js "model", m)] in
  let p1 := setModel m fresh_page in
  let w1 := onMessage failing 1 (Text wire) session1 in
  let w2 := onMessage (answering (js "Hi")) 1 chat_hello w1 in
  ws fresh_page = Some []
  /\ JSON_parse wire
     = Some (object_of [(js "type", js "model"); (js "model", m)])
  /\ chat_command chat_hello (js "hello")
  /\ last_sent p1 = Some wire
  /\ transcript p1 = transcript fresh_page
  /\ events (effects_of session1 w1) = []
  /\ model (state w1) = JStr m
  /\ exists turns, In (AiRun (JStr m) turns) (effects_of w1 w2).
Proof.
  intros m wire p1 w1 w2.
  assert (H1 : ws fresh_page = Some []) by reflexivity.
  assert (H2 : JSON_parse wire
               = Some (object_of [(js "type", js "model"); (js "model", m)]))
    by (vm_compute; reflexivity).
  split; [exact H1|]; split; [exact H2|]; split; [exact chat_hello_command|].
  exact (@page_model_choice_reaches_the_backend std std_browser
           failing (answering (js "Hi")) 1 1 m fresh_page [] chat_hello
           (js "hello") session1 H1 H2 chat_hello_command).
Defined.

End MoreScenarios.
